(** * FPL-Gen-Bot: the resilient API client, the performance predictor and
      the transfer decision engine

    A shallow embedding of [services/fpl_api.py] and
    [services/ml_predictor.py], with the properties the specification
    states about them.  [services/transfer_engine.py] is known through its
    tests and the specification only; its functions are modelled from the
    specification and marked as such.  Python objects are modelled as
    follows:

    - a [dict] with string keys is a [gmap string value];
    - a dynamically typed scalar is a [value] ([None], [int], [float],
      [str]); a Python [float] is an IEEE-754 binary64 number, here a
      [spec_float] used at precision 53 and maximal exponent 1024;
    - an [aiohttp.ClientSession] is a [conn]: an identifier and the headers
      it was built with;
    - the network is an oracle [respond]: the n-th request issued through
      the client receives the n-th outcome; what the client does (requests,
      sleeps, opening and closing sessions) is appended to a trace. *)

From Stdlib Require Import ZArith String Ascii List Bool Lia SpecFloat.
From stdpp Require Import gmap strings list.
Import ListNotations.

(** ** Configuration: [config/settings.py] *)

Module Settings.

Definition FPL_BASE_URL : string := "https://fantasy.premierleague.com/api".

Record settings := {
  FPL_USERNAME : option string;
  FPL_PASSWORD : option string;
  SESSION_ID : option string;
  CSRF_TOKEN : option string;
  TEAM_ID : option string
}.

(** Truthiness of what [os.getenv] returns: [None] and the empty string are
    false. *)
Definition configured (v : option string) : bool :=
  match v with
  | None => false
  | Some s => negb (String.eqb s "")
  end.

(** The text an f-string substitutes for a setting. *)
Definition text (v : option string) : string :=
  match v with
  | None => "None"
  | Some s => s
  end.

End Settings.

(** ** Python values *)

Module Py.

(** Python's [float] is binary64. *)
Definition prec : Z := 53.
Definition emax : Z := 1024.

Definition fmul : spec_float -> spec_float -> spec_float := SFmul prec emax.
Definition fdiv : spec_float -> spec_float -> spec_float := SFdiv prec emax.

(** [float(z)]: the nearest binary64 number, ties to even; an integer too
    large for the format rounds to infinity here, and the operations below
    raise [OverflowError] on it as Python does. *)
Definition of_Z (z : Z) : spec_float := binary_normalize prec emax z 0 false.

Definition fzero : spec_float := S754_zero false.

Definition is_nan (f : spec_float) : bool :=
  match f with
  | S754_nan => true
  | _ => false
  end.

Definition is_finite (f : spec_float) : bool :=
  match f with
  | S754_zero _ => true
  | S754_finite _ _ _ => true
  | _ => false
  end.

(** The scalars a JSON document or a statistics dictionary holds. *)
Inductive value :=
| VNone
| VInt (z : Z)
| VFloat (f : spec_float)
| VStr (s : string).

Inductive exn := TypeError | OverflowError | ZeroDivisionError | ModelError.

(** A computation that returns or raises. *)
Inductive result (A : Type) :=
| Returns (v : A)
| Raises (e : exn).

Arguments Returns {A} v.
Arguments Raises {A} e.

Definition bind {A B : Type} (r : result A) (k : A -> result B) : result B :=
  match r with
  | Returns v => k v
  | Raises e => Raises e
  end.

(** [x / y] on floats: a zero divisor raises. *)
Definition truediv (x y : spec_float) : result spec_float :=
  match y with
  | S754_zero _ => Raises ZeroDivisionError
  | _ => Returns (fdiv x y)
  end.

(** [bool(v)] *)
Definition truthy (v : value) : bool :=
  match v with
  | VNone => false
  | VInt z => negb (z =? 0)%Z
  | VFloat f => negb (SFeqb f fzero)
  | VStr s => negb (String.eqb s "")
  end.

(** [v or d] *)
Definition or_ (v d : value) : value := if truthy v then v else d.

(** Whether a binary64 number is exactly the integer [z]: Python compares
    an [int] with a [float] without rounding. *)
Definition float_is_Z (f : spec_float) (z : Z) : bool :=
  match f with
  | S754_zero _ => (z =? 0)%Z
  | S754_finite sg m e =>
      let sm := if sg then Z.neg m else Z.pos m in
      if (0 <=? e)%Z then (z =? sm * 2 ^ e)%Z
      else (z * 2 ^ (- e) =? sm)%Z
  | _ => false
  end.

(** [v == w] *)
Definition eq_ (v w : value) : bool :=
  match v, w with
  | VNone, VNone => true
  | VInt a, VInt b => (a =? b)%Z
  | VFloat f, VFloat g => SFeqb f g
  | VInt a, VFloat g => float_is_Z g a
  | VFloat f, VInt b => float_is_Z f b
  | VStr s, VStr t => String.eqb s t
  | _, _ => false
  end.

(** [v > 0] *)
Definition gt0 (v : value) : result bool :=
  match v with
  | VInt z => Returns (0 <? z)%Z
  | VFloat f => Returns (SFltb fzero f)
  | _ => Raises TypeError
  end.

(** [max(0, v)]: the first argument is kept unless [v > 0]. *)
Definition max0 (v : value) : result value :=
  bind (gt0 v) (fun above => Returns (if above then v else VInt 0)).

(** [d.get(k)] and [d.get(k, dflt)] *)
Definition get (d : gmap string value) (k : string) : value :=
  default VNone (d !! k).

Definition get_or (d : gmap string value) (k : string) (dflt : value)
    : value :=
  default dflt (d !! k).

(** [0 <= v] for a returned number. *)
Definition nonneg (v : value) : Prop :=
  match v with
  | VInt z => (0 <= z)%Z
  | VFloat f => SFleb fzero f = true
  | _ => False
  end.

End Py.

(** ** The API client: [services/fpl_api.py] *)

Module FPLAPI.

Import Settings Py.

Record conn := {
  conn_id : nat;
  conn_headers : list (string * string)
}.

Inductive event :=
| EvOpen (c : conn)
| EvClose (c : conn)
| EvRequest (verb : string) (c : conn) (url : string)
| EvSleep (seconds : Z).

(** The two attributes of an [FPLAPI] object, with the bookkeeping of the
    world around it: the next fresh connection identifier, the number of
    requests issued, the number of [_authenticate] calls, and the trace of
    effects, oldest first. *)
Record api := {
  session : option conn;
  authenticated_session : option conn;
  fresh : nat;
  issued : nat;
  auth_calls : nat;
  trace : list event
}.

Definition log (e : event) (a : api) : api :=
  {| session := session a;
     authenticated_session := authenticated_session a;
     fresh := fresh a;
     issued := issued a;
     auth_calls := auth_calls a;
     trace := trace a ++ [e] |}.

(** [await asyncio.sleep(d)] *)
Definition sleep (d : Z) (a : api) : api := log (EvSleep d) a.

(** [await c.close()] *)
Definition close (c : conn) (a : api) : api := log (EvClose c) a.

(** [self.authenticated_session = aiohttp.ClientSession(headers=h)] *)
Definition open_authenticated (h : list (string * string)) (a : api) : api :=
  let c := {| conn_id := fresh a; conn_headers := h |} in
  {| session := session a;
     authenticated_session := Some c;
     fresh := S (fresh a);
     issued := issued a;
     auth_calls := auth_calls a;
     trace := trace a ++ [EvOpen c] |}.

Definition count_auth_call (a : api) : api :=
  {| session := session a;
     authenticated_session := authenticated_session a;
     fresh := fresh a;
     issued := issued a;
     auth_calls := S (auth_calls a);
     trace := trace a |}.

(** [__aenter__]: the plain pooled session. *)
Definition aenter (a : api) : api :=
  let c := {| conn_id := fresh a;
              conn_headers := [("User-Agent", "FPL-Bot/1.0")] |} in
  {| session := Some c;
     authenticated_session := authenticated_session a;
     fresh := S (fresh a);
     issued := issued a;
     auth_calls := auth_calls a;
     trace := trace a ++ [EvOpen c] |}.

(** [FPLAPI()] *)
Definition init : api :=
  {| session := None; authenticated_session := None;
     fresh := 0; issued := 0; auth_calls := 0; trace := [] |}.

(** *** [_authenticate] *)

(** What the library calls inside the [try] of [_authenticate] may do:
    nothing wrong, [close()] raising, or a constructor raising. *)
Inductive local_fault := NoFault | CloseRaises | OpenRaises.

Definition session_headers (cfg : settings) : list (string * string) :=
  [("User-Agent", "FPL-Bot/1.0");
   ("Cookie", "sessionid=" +:+ text (SESSION_ID cfg) +:+ "; csrftoken="
                +:+ text (CSRF_TOKEN cfg));
   ("X-CSRFToken", text (CSRF_TOKEN cfg));
   ("Referer", "https://fantasy.premierleague.com/")].

Definition credential_headers : list (string * string) :=
  [("User-Agent", "FPL-Bot/1.0")].

Definition _authenticate (cfg : settings) (faults : nat -> local_fault)
    (a0 : api) : bool * api :=
  let flt := faults (auth_calls a0) in
  let a := count_auth_call a0 in
  let closed :=
    match authenticated_session a with
    | Some c =>
        match flt with
        | CloseRaises => None
        | _ => Some (close c a)
        end
    | None => Some a
    end in
  match closed with
  | None => (false, a)
  | Some a1 =>
      if configured (SESSION_ID cfg) && configured (CSRF_TOKEN cfg) then
        match flt with
        | OpenRaises => (false, a1)
        | _ => (true, open_authenticated (session_headers cfg) a1)
        end
      else if configured (FPL_USERNAME cfg) && configured (FPL_PASSWORD cfg) then
        match flt with
        | OpenRaises => (false, a1)
        | _ => (true, open_authenticated credential_headers a1)
        end
      else (false, a1)
  end.

(** The states of the authentication state machine, read off the
    [authenticated_session] attribute. *)
Inductive auth_state :=
| Unauthenticated
| SessionAuthenticated
| CredentialAuthenticated.

Definition has_header (name : string) (c : conn) : bool :=
  existsb (fun h => String.eqb (fst h) name) (conn_headers c).

Definition state_of (a : api) : auth_state :=
  match authenticated_session a with
  | None => Unauthenticated
  | Some c =>
      if has_header "Cookie" c && has_header "X-CSRFToken" c
         && has_header "Referer" c
      then SessionAuthenticated
      else CredentialAuthenticated
  end.

(** *** [_make_request_with_retry] *)

(** [str.upper] on ASCII text. *)
Definition upper_ascii (c : ascii) : ascii :=
  let n := nat_of_ascii c in
  if (97 <=? n)%nat && (n <=? 122)%nat then ascii_of_nat (n - 32) else c.

Fixpoint upper (s : string) : string :=
  match s with
  | EmptyString => EmptyString
  | String c rest => String (upper_ascii c) (upper rest)
  end.

Definition max_retries : nat := 3.

(** The client once a request has left through [c]. *)
Definition sent (verb : string) (c : conn) (url : string) (a : api) : api :=
  {| session := session a;
     authenticated_session := authenticated_session a;
     fresh := fresh a;
     issued := S (issued a);
     auth_calls := auth_calls a;
     trace := trace a ++ [EvRequest verb c url] |}.

(** [self.authenticated_session if self.authenticated_session else
    self.session] *)
Definition session_to_use (s : conn) (a : api) : conn :=
  match authenticated_session a with
  | Some c => c
  | None => s
  end.

Section Retry.

(** The type of parsed JSON documents. *)
Context {Body : Type}.

(** What one HTTP request comes back with: a response with its status and
    what [response.json()] gives ([None] when it raises), a timeout
    ([asyncio.TimeoutError]), or any other exception. *)
Inductive outcome :=
| Response (status : Z) (json : option Body)
| TimeoutError
| ClientError.

Variable cfg : settings.
Variable respond : nat -> outcome.
Variable faults : nat -> local_fault.
Variable url : string.
Variable method : string.

(** [async with c.get(url)] or [c.post(url)]: the request is logged and
    answered by the oracle. *)
Definition send (verb : string) (c : conn) (a : api) : outcome * api :=
  (respond (issued a), sent verb c url a).

(** The body of [for attempt in range(max_retries)], by recursion on the
    attempts that remain; [s] is [self.session], checked before the loop.
    The result is [None] for Python's [None]. *)
Fixpoint attempts_loop (s : conn) (attempts : list nat) (retry_delay : Z)
    (a : api) : option Body * api :=
  match attempts with
  | [] => (None, a)
  | attempt :: rest =>
      (* the tail shared by the final [else] and the two handlers *)
      let backoff (a' : api) :=
        if (attempt <? max_retries - 1)%nat
        then attempts_loop s rest (retry_delay * 2) (sleep retry_delay a')
        else (None, a') in
      (* the tail of the two 429 branches *)
      let rate_limited (a' : api) :=
        attempts_loop s rest (retry_delay * 2) (sleep (retry_delay * 2) a') in
      if String.eqb (upper method) "GET" then
        let '(o, a1) := send "GET" s a in
        match o with
        | Response status json =>
            if (status =? 200)%Z then
              match json with
              | Some j => (Some j, a1)
              | None => backoff a1
              end
            else if (status =? 429)%Z then rate_limited a1
            else backoff a1
        | TimeoutError => backoff a1
        | ClientError => backoff a1
        end
      else if String.eqb (upper method) "POST" then
        let '(o, a1) := send "POST" (session_to_use s a) a in
        match o with
        | Response status json =>
            if (status =? 200)%Z then
              match json with
              | Some j => (Some j, a1)
              | None => backoff a1
              end
            else if (status =? 401)%Z then
              let '(ok, a2) := _authenticate cfg faults a1 in
              if ok then
                match authenticated_session a2 with
                | Some c =>
                    let '(o2, a3) := send "POST" c a2 in
                    match o2 with
                    | Response status2 json2 =>
                        if (status2 =? 200)%Z then
                          match json2 with
                          | Some j => (Some j, a3)
                          | None => backoff a3
                          end
                        else (None, a3)
                    | TimeoutError => backoff a3
                    | ClientError => backoff a3
                    end
                | None => (None, a2)
                end
              else (None, a2)
            else if (status =? 429)%Z then rate_limited a1
            else backoff a1
        | TimeoutError => backoff a1
        | ClientError => backoff a1
        end
      else (None, a)
  end.

Definition _make_request_with_retry (a : api) : option Body * api :=
  match session a with
  | None => (None, a)
  | Some s => attempts_loop s (seq 0 max_retries) 1%Z a
  end.

End Retry.

Arguments outcome : clear implicits.

(** *** Vocabulary for the properties below *)

(** The events [_authenticate] starts with: the existing authenticated
    session, if any, is closed. *)
Definition closes_of (a : api) : list event :=
  match authenticated_session a with
  | Some c => [EvClose c]
  | None => []
  end.

(** Whether a library call of this [_authenticate] raises, which sends it
    to the [except] branch: [close()] is only called on an existing
    session, a constructor only with credentials configured. *)
Definition raises_here (cfg : settings) (faults : nat -> local_fault)
    (a : api) : bool :=
  match faults (auth_calls a) with
  | NoFault => false
  | CloseRaises =>
      match authenticated_session a with
      | Some _ => true
      | None => false
      end
  | OpenRaises =>
      (configured (SESSION_ID cfg) && configured (CSRF_TOKEN cfg))
      || (configured (FPL_USERNAME cfg) && configured (FPL_PASSWORD cfg))
  end.

(** The client once the first request of an attempt has left: a GET goes
    through [self.session], a POST through [session_to_use]. *)
Definition primary (method url : string) (s : conn) (a : api) : api :=
  if String.eqb (upper method) "GET" then sent "GET" s url a
  else sent "POST" (session_to_use s a) url a.

Definition supported (method : string) : Prop :=
  upper method = "GET" \/ upper method = "POST".

(** The failures that go through the ordinary back-off: a status other
    than 200 and 429 (and, for a POST, other than 401), a timeout, any other
    exception. *)
Definition transient {Body : Type} (method : string) (o : outcome Body)
    : Prop :=
  match o with
  | Response status _ =>
      status <> 200%Z /\ status <> 429%Z
      /\ (upper method = "POST" -> status <> 401%Z)
  | TimeoutError => True
  | ClientError => True
  end.

(** The fixture is in the gameweek and the team is its home side, or its
    away side, or either. *)
Definition at_home (fixture : gmap string value) (team_id gameweek : value)
    : bool :=
  eq_ (get fixture "event") gameweek && eq_ (get fixture "team_h") team_id.

Definition away (fixture : gmap string value) (team_id gameweek : value)
    : bool :=
  eq_ (get fixture "event") gameweek && eq_ (get fixture "team_a") team_id.

Definition involves (fixture : gmap string value) (team_id gameweek : value)
    : bool :=
  at_home fixture team_id gameweek || away fixture team_id gameweek.

(** The request raised inside the [try]: a timeout, another exception, or
    a 200 response whose body [response.json()] cannot parse. *)
Definition raised {Body : Type} (o : outcome Body) : Prop :=
  o = TimeoutError \/ o = ClientError \/ o = Response 200%Z None.

(** *** [get_fixtures] and [get_fixture_difficulty] *)

(** The loop over the fetched fixtures: the first fixture of the gameweek
    in which the team plays decides. *)
Fixpoint scan_fixtures (fixtures : list (gmap string value))
    (team_id gameweek : value) : value :=
  match fixtures with
  | [] => VInt 3
  | fixture :: rest =>
      if eq_ (get fixture "event") gameweek then
        if eq_ (get fixture "team_h") team_id then
          get_or fixture "team_h_difficulty" (VInt 3)
        else if eq_ (get fixture "team_a") team_id then
          get_or fixture "team_a_difficulty" (VInt 3)
        else scan_fixtures rest team_id gameweek
      else scan_fixtures rest team_id gameweek
  end.

(** What [get_fixture_difficulty] does with the answer of [get_fixtures];
    [not fixtures] holds for [None] and for the empty list. *)
Definition difficulty_of (fixtures : option (list (gmap string value)))
    (team_id gameweek : value) : value :=
  match fixtures with
  | None => VInt 3
  | Some [] => VInt 3
  | Some l => scan_fixtures l team_id gameweek
  end.

Section Fixtures.

Variable cfg : settings.
Variable respond : nat -> outcome (list (gmap string value)).
Variable faults : nat -> local_fault.

Definition get_fixtures (a : api)
    : option (list (gmap string value)) * api :=
  _make_request_with_retry cfg respond faults
    (FPL_BASE_URL +:+ "/fixtures/") "GET" a.

Definition get_fixture_difficulty (team_id gameweek : value) (a : api)
    : value * api :=
  let '(fixtures, a') := get_fixtures a in
  (difficulty_of fixtures team_id gameweek, a').

End Fixtures.

End FPLAPI.

(** ** The performance predictor: [services/ml_predictor.py] *)

Module MLPredictor.

Import Py.

(** The literal [1.2]: the binary64 number nearest to 12/10. *)
Definition f1_2 : spec_float := fdiv (of_Z 12) (of_Z 10).

(** An [MLPredictor] object: the [is_trained] flag and the fitted model,
    an oracle from a feature row to the first predicted value; [None]
    stands for [self.model.predict] raising. *)
Record predictor := {
  is_trained : bool;
  model_predict : list spec_float -> option spec_float
}.

(** [v * 1.2] *)
Definition times_1_2 (v : value) : result value :=
  match v with
  | VInt z =>
      if is_finite (of_Z z) then Returns (VFloat (fmul (of_Z z) f1_2))
      else Raises OverflowError
  | VFloat f => Returns (VFloat (fmul f f1_2))
  | _ => Raises TypeError
  end.

(** The fifteen entries of the feature row, in the order of the source. *)
Definition feature_values (player_stats : gmap string value)
    (opponent_difficulty : value) : result (list value) :=
  let stat (k : string) (dflt : value) :=
    or_ (get_or player_stats k dflt) dflt in
  bind (gt0 (or_ (get_or player_stats "clean_sheets" (VInt 0)) (VInt 0)))
    (fun kept =>
       Returns
         [ or_ opponent_difficulty (VInt 3);
           stat "minutes" (VInt 0);
           stat "goals_scored" (VInt 0);
           stat "assists" (VInt 0);
           (if kept then VInt 1 else VInt 0);
           stat "yellow_cards" (VInt 0);
           stat "red_cards" (VInt 0);
           stat "saves" (VInt 0);
           stat "bonus" (VInt 0);
           stat "bps" (VInt 0);
           stat "form" (VFloat fzero);
           stat "points_per_game" (VFloat fzero);
           stat "selected_by_percent" (VFloat fzero);
           stat "transfers_in" (VInt 0);
           stat "transfers_out" (VInt 0) ]).

(** The row as numpy sees it: numbers become binary64; with a string in it
    the row is no numeric array and [np.isnan] raises [TypeError].  An
    integer beyond the binary64 range becomes an infinity here and fails the
    validity test; should numpy raise on it instead, the handler returns the
    same [max(0, form)]. *)
Fixpoint np_row (vs : list value) : result (list spec_float) :=
  match vs with
  | [] => Returns []
  | v :: rest =>
      bind (match v with
            | VInt z => Returns (of_Z z)
            | VFloat f => Returns f
            | _ => Raises TypeError
            end)
        (fun f => bind (np_row rest) (fun fs => Returns (f :: fs)))
  end.

(** [np.isnan(features).any() or not np.isfinite(features).all()] *)
Definition invalid_features (fs : list spec_float) : bool :=
  existsb is_nan fs || negb (forallb is_finite fs).

Definition predict_performance (p : predictor)
    (player_stats : gmap string value) (opponent_difficulty : value)
    : result value :=
  if negb (is_trained p) then
    bind (times_1_2 (get_or player_stats "form" (VInt 0))) max0
  else
    let tried :=
      bind (feature_values player_stats opponent_difficulty) (fun vs =>
      bind (np_row vs) (fun features =>
        if invalid_features features then
          max0 (get_or player_stats "form" (VInt 0))
        else
          match model_predict p features with
          | Some prediction => max0 (VFloat prediction)
          | None => Raises ModelError
          end)) in
    match tried with
    | Returns v => Returns v
    | Raises _ => max0 (get_or player_stats "form" (VInt 0))
    end.

(** The [form] entry is missing or a number that [float] accepts. *)
Definition numeric_form (player_stats : gmap string value) : Prop :=
  match player_stats !! "form" with
  | None => True
  | Some (VFloat _) => True
  | Some (VInt z) => is_finite (of_Z z) = true
  | Some _ => False
  end.

End MLPredictor.

(** ** The transfer decision engine *)

Module TransferEngine.

Import Py.

(** Modelled from the spec: [services/transfer_engine.py] is not among the
    sources; the availability status codes are those of the data model
    (section 3). *)
Inductive status_code :=
| available
| doubtful
| injured
| suspended
| unavailable.

(** Modelled from the spec: the fields of a player snapshot that the
    availability filter, the valuation and the expected-points fallback read
    (section 3 and section 4.2); [history] holds the recorded total-points
    values, oldest first. *)
Record PlayerSnapshot := {
  status : option status_code;
  chance_of_playing_next_round : option Z;
  now_cost : Z;
  history : list Z
}.

(** Modelled from the spec: the availability filter of section 4.2; the
    function of [services/transfer_engine.py] is missing. *)
Definition is_player_available (p : PlayerSnapshot) : bool :=
  let code := default available (status p) in
  negb (match code with
        | injured | suspended | unavailable => true
        | _ => false
        end)
  && match chance_of_playing_next_round p with
     | None => true
     | Some chance => (75 <=? chance)%Z
     end.

(** Modelled from the spec: the valuation of section 4.2,
    [expected_points / (price / 10)] with the guard on a price of zero; the
    function of [services/transfer_engine.py] is missing. *)
Definition player_value (price : Z) (expected_points : spec_float)
    : result spec_float :=
  if (price =? 0)%Z then Returns fzero
  else bind (truediv (of_Z price) (of_Z 10)) (truediv expected_points).

Section ExpectedPoints.

(** The spec fixes the multiplier for the difficulties 1 to 5 only. *)
Variable unlisted_multiplier : spec_float.

(** Modelled from the spec: the difficulty multiplier table of section 4.2
    (1.4, 1.3, 1.2, 1.0, 0.8); the table of [services/transfer_engine.py] is
    missing. *)
Definition difficulty_multiplier (difficulty : Z) : spec_float :=
  if (difficulty =? 1)%Z then fdiv (of_Z 14) (of_Z 10)
  else if (difficulty =? 2)%Z then fdiv (of_Z 13) (of_Z 10)
  else if (difficulty =? 3)%Z then fdiv (of_Z 12) (of_Z 10)
  else if (difficulty =? 4)%Z then of_Z 1
  else if (difficulty =? 5)%Z then fdiv (of_Z 8) (of_Z 10)
  else unlisted_multiplier.

(** The most recent three entries of a history, [history[-3:]]. *)
Definition recent3 (h : list Z) : list Z := skipn (length h - 3) h.

Definition sum_Z (l : list Z) : Z := fold_right Z.add 0%Z l.

(** Modelled from the spec: the fallback of section 4.2, the average of the
    most recent three total-points values (0 for an empty history) times the
    difficulty multiplier. *)
Definition fallback_points (h : list Z) (difficulty : Z) : spec_float :=
  match recent3 h with
  | [] => fzero
  | r => fmul (fdiv (of_Z (sum_Z r)) (of_Z (Z.of_nat (length r))))
              (difficulty_multiplier difficulty)
  end.

(** Modelled from the spec: the expected points of section 4.2;
    [trained] is the predictor's [is_trained] and [predicted] what it
    answers for this player; the function of
    [services/transfer_engine.py] is missing. *)
Definition calculate_expected_points (trained : bool)
    (predicted : spec_float) (p : PlayerSnapshot) (difficulty : Z)
    : spec_float :=
  if trained && is_finite predicted then predicted
  else fallback_points (history p) difficulty.

(** Modelled from the spec: [calculate_player_value] of section 4.2 over a
    player snapshot. *)
Definition calculate_player_value (trained : bool) (predicted : spec_float)
    (p : PlayerSnapshot) (difficulty : Z) : result spec_float :=
  player_value (now_cost p)
    (calculate_expected_points trained predicted p difficulty).

End ExpectedPoints.

(** Modelled from the spec: a transfer record (section 3), without its
    timestamp. *)
Record TransferRecord := {
  player_out : Z;
  player_in : Z;
  gain : spec_float;
  cost : Z;
  gameweek : Z
}.

(** Modelled from the spec: the record store of section 6, exposing
    [add], [commit] and [rollback]; the calls made on it are kept in
    [calls], oldest first. *)
Inductive store_call :=
| Add (r : TransferRecord)
| Commit
| Rollback.

Record store := {
  committed : list TransferRecord;
  pending : list TransferRecord;
  calls : list store_call
}.

(** Which store operations raise during one [record_transfer]. *)
Record store_faults := {
  add_raises : bool;
  commit_raises : bool
}.

Definition called (c : store_call) (s : store) : store :=
  {| committed := committed s; pending := pending s;
     calls := calls s ++ [c] |}.

Definition add (flt : store_faults) (r : TransferRecord) (s : store)
    : option store :=
  let s1 := called (Add r) s in
  if add_raises flt then None
  else Some {| committed := committed s1; pending := pending s1 ++ [r];
               calls := calls s1 |}.

Definition commit (flt : store_faults) (s : store) : option store :=
  let s1 := called Commit s in
  if commit_raises flt then None
  else Some {| committed := committed s1 ++ pending s1; pending := [];
               calls := calls s1 |}.

Definition rollback (s : store) : store :=
  let s1 := called Rollback s in
  {| committed := committed s1; pending := []; calls := calls s1 |}.

(** Modelled from the spec: [record_transfer] of section 4.2 ("added and
    committed as a single transaction; any persistence fault triggers a
    rollback and is logged, not propagated"); the function of
    [services/transfer_engine.py] is missing.  The result is the store and
    the number of errors logged. *)
Definition record_transfer (flt : store_faults) (r : TransferRecord)
    (s : store) : store * nat :=
  match add flt r s with
  | None => (rollback (called (Add r) s), 1%nat)
  | Some s1 =>
      match commit flt s1 with
      | None => (rollback (called Commit s1), 1%nat)
      | Some s2 => (s2, 0%nat)
      end
  end.

Definition count_calls (f : store_call -> bool) (s : store) : nat :=
  length (List.filter f (calls s)).

Definition is_commit (c : store_call) : bool :=
  match c with Commit => true | _ => false end.

Definition is_rollback (c : store_call) : bool :=
  match c with Rollback => true | _ => false end.

Definition is_add (c : store_call) : bool :=
  match c with Add _ => true | _ => false end.

End TransferEngine.

(** ** Concrete configurations, clients and oracles *)

Module Samples.

Import Settings Py FPLAPI MLPredictor TransferEngine.

(** Session cookie and credentials both configured. *)
Definition cfg_both : settings :=
  {| FPL_USERNAME := Some "manager"; FPL_PASSWORD := Some "secret";
     SESSION_ID := Some "sid"; CSRF_TOKEN := Some "tok";
     TEAM_ID := Some "7" |}.

Definition cfg_credentials : settings :=
  {| FPL_USERNAME := Some "manager"; FPL_PASSWORD := Some "secret";
     SESSION_ID := None; CSRF_TOKEN := None; TEAM_ID := Some "7" |}.

Definition cfg_none : settings :=
  {| FPL_USERNAME := None; FPL_PASSWORD := None;
     SESSION_ID := None; CSRF_TOKEN := None; TEAM_ID := Some "7" |}.

Definition no_faults : nat -> local_fault := fun _ => NoFault.

(** Every session constructor raises. *)
Definition constructor_faults : nat -> local_fault := fun _ => OpenRaises.

(** A client inside its [async with] block. *)
Definition entered : api := aenter init.

Definition plain : conn :=
  {| conn_id := 0; conn_headers := [("User-Agent", "FPL-Bot/1.0")] |}.

Definition bootstrap_url : string := FPL_BASE_URL +:+ "/bootstrap-static/".

Definition transfers_url : string := FPL_BASE_URL +:+ "/transfers/".

(** Every request is answered 429. *)
Definition sustained_429 : nat -> outcome unit :=
  fun _ => Response 429 None.

(** Every request is answered 503. *)
Definition sustained_503 : nat -> outcome unit :=
  fun _ => Response 503 None.

(** A write answered 401, whose retry after re-authentication times out,
    and whose next attempt is answered 200. *)
Definition unauthorized_then_timeout : nat -> outcome unit :=
  fun n =>
    match n with
    | 0 => Response 401 None
    | 1 => TimeoutError
    | _ => Response 200 (Some tt)
    end.

(** A write answered 401, whose retry is answered 200. *)
Definition unauthorized_then_ok : nat -> outcome unit :=
  fun n =>
    match n with
    | 0 => Response 401 None
    | _ => Response 200 (Some tt)
    end.

(** The two fixtures of [tests/test_fpl_api.py]. *)
Definition fixture_1v2 : gmap string value :=
  {[ "event" := VInt 1; "team_h" := VInt 1; "team_h_difficulty" := VInt 2;
     "team_a" := VInt 2; "team_a_difficulty" := VInt 4 ]}.

Definition fixture_3v4 : gmap string value :=
  {[ "event" := VInt 1; "team_h" := VInt 3; "team_h_difficulty" := VInt 3;
     "team_a" := VInt 4; "team_a_difficulty" := VInt 3 ]}.

(** A second fixture of team 1 in gameweek 1, away from home. *)
Definition fixture_3v1 : gmap string value :=
  {[ "event" := VInt 1; "team_h" := VInt 3; "team_h_difficulty" := VInt 2;
     "team_a" := VInt 1; "team_a_difficulty" := VInt 5 ]}.

Definition fixtures_served (l : list (gmap string value))
    : nat -> outcome (list (gmap string value)) :=
  fun _ => Response 200 (Some l).

(** The binary64 numbers 1.2, 2.0 and 6.0. *)
Definition float_1_2 : spec_float := S754_finite false 5404319552844595 (-52).
Definition float_2_0 : spec_float := S754_finite false 4503599627370496 (-51).
Definition float_6_0 : spec_float := S754_finite false 6755399441055744 (-50).

Definition snapshot (st : option status_code) (chance : option Z)
    (price : Z) (h : list Z) : PlayerSnapshot :=
  {| status := st; chance_of_playing_next_round := chance;
     now_cost := price; history := h |}.

Definition no_store_faults : store_faults :=
  {| add_raises := false; commit_raises := false |}.

Definition add_fault : store_faults :=
  {| add_raises := true; commit_raises := false |}.

Definition untrained : predictor :=
  {| is_trained := false; model_predict := fun _ => None |}.

Definition trained_answering (f : spec_float) : predictor :=
  {| is_trained := true; model_predict := fun _ => Some f |}.

Definition empty_store : store :=
  {| committed := []; pending := []; calls := [] |}.

Definition transfer_13 : TransferRecord :=
  {| player_out := 1; player_in := 2;
     gain := fdiv (of_Z 5) (of_Z 2); cost := 0; gameweek := 13 |}.

End Samples.

(** ** The rest of the API client *)

Module Endpoints.

Import Settings Py FPLAPI.

(** *** Connections over time *)

(** The identifiers of the connections opened and not closed since, read
    off a trace; closing a closed session does nothing. *)
Fixpoint live_after (opened : gset nat) (tr : list event) : gset nat :=
  match tr with
  | [] => opened
  | EvOpen c :: rest => live_after (opened ∪ {[conn_id c]}) rest
  | EvClose c :: rest => live_after (opened ∖ {[conn_id c]}) rest
  | _ :: rest => live_after opened rest
  end.

Definition live (a : api) : gset nat := live_after ∅ (trace a).

Definition id_of (c : option conn) : gset nat :=
  match c with
  | Some c => {[conn_id c]}
  | None => ∅
  end.

(** Every open connection is held in one of the two attributes. *)
Definition no_leak (a : api) : Prop :=
  live a ⊆ id_of (session a) ∪ id_of (authenticated_session a).

(** The client inside its [async with] block: the plain session is open,
    the authenticated one is another connection, and nothing else is
    open. *)
Definition in_block (a : api) : Prop :=
  exists s,
    session a = Some s
    /\ conn_id s ∈ live a
    /\ (conn_id s < fresh a)%nat
    /\ (forall c, authenticated_session a = Some c ->
          conn_id c <> conn_id s /\ (conn_id c < fresh a)%nat)
    /\ no_leak a.

(** Two clients with the same attributes, the same counter of identifiers
    and the same open connections. *)
Definition same_connections (a b : api) : Prop :=
  session b = session a
  /\ authenticated_session b = authenticated_session a
  /\ fresh b = fresh a
  /\ live b = live a.

(** As [in_block], with no authenticated connection open: the attribute is
    empty or points at a closed session. *)
Definition only_plain (a : api) : Prop :=
  exists s,
    session a = Some s
    /\ conn_id s ∈ live a
    /\ (conn_id s < fresh a)%nat
    /\ (forall c, authenticated_session a = Some c ->
          conn_id c <> conn_id s /\ (conn_id c < fresh a)%nat)
    /\ live a ⊆ {[conn_id s]}.

(** [__aexit__]: both sessions, where set, are closed; the attributes keep
    pointing at them. *)
Definition __aexit__ (a : api) : api :=
  let a1 :=
    match session a with
    | Some c => close c a
    | None => a
    end in
  match authenticated_session a1 with
  | Some c => close c a1
  | None => a1
  end.

(** The requests a trace holds, and the seconds it sleeps. *)
Definition requests_of (tr : list event) : list (string * conn * string) :=
  flat_map (fun e => match e with
                     | EvRequest verb c url => [(verb, c, url)]
                     | _ => []
                     end) tr.

Definition sleeps_of (tr : list event) : list Z :=
  flat_map (fun e => match e with
                     | EvSleep d => [d]
                     | _ => []
                     end) tr.

Definition sum_seconds (l : list Z) : Z := fold_right Z.add 0%Z l.

Definition total_sleep (tr : list event) : Z := sum_seconds (sleeps_of tr).

(** The seconds that [n] further attempts may sleep, from the delay [d]:
    each attempt sleeps at most twice the delay and doubles it. *)
Fixpoint sleep_budget (d : Z) (n : nat) : Z :=
  match n with
  | O => 0
  | S n' => 2 * d + sleep_budget (2 * d) n'
  end.

(** No request numbered from [lo] up to [hi] (excluded) was answered 200
    with a body that parses. *)
Definition all_failed {Body : Type} (respond : nat -> outcome Body)
    (lo hi : nat) : Prop :=
  forall n j, (lo <= n < hi)%nat -> respond n <> Response 200%Z (Some j).

(** What a call that started at request number [lo] came back with: a
    body only if its last request was answered 200 with that body and all
    its earlier requests failed; no body only if all its requests failed. *)
Definition answered_by {Body : Type} (respond : nat -> outcome Body)
    (lo : nat) (r : option Body * api) : Prop :=
  (lo <= issued (snd r))%nat
  /\ match fst r with
     | Some j =>
         (lo < issued (snd r))%nat
         /\ respond (issued (snd r) - 1)%nat = Response 200%Z (Some j)
         /\ all_failed respond lo (issued (snd r) - 1)%nat
     | None => all_failed respond lo (issued (snd r))
     end.

(** What the caller of [_make_request_with_retry] holds in the end.  The
    call returns what [response.json()] gave, and for a body that is JSON
    null that is Python's [None], the value that also stands for failure;
    [is_null] tells the null document. *)
Definition seen_by_caller {Body : Type} (is_null : Body -> bool)
    (r : option Body) : option Body :=
  match r with
  | Some j => if is_null j then None else Some j
  | None => None
  end.

(** The text has ASCII characters only; on such text [upper] is Python's
    [str.upper]. *)
Definition ascii_text (s : string) : bool :=
  forallb (fun c => (nat_of_ascii c <? 128)%nat) (list_ascii_of_string s).

(** *** The fetch operations *)

(** The part of the bootstrap document the client reads: a dictionary of
    lists of flat dictionaries (['events'], ['elements']).  A JSON boolean
    is the integer 1 or 0, as Python's [bool] is a subclass of [int]. *)
Abbreviation bootstrap := (gmap string (list (gmap string value))).

(** [bool(d)] for a dictionary. *)
Definition nonempty {V : Type} (d : gmap string V) : bool :=
  match map_to_list d with
  | [] => false
  | _ => true
  end.

Section Fetch.

Variable cfg : settings.
Variable faults : nat -> local_fault.

(** What an f-string writes for a value, [str(v)]. *)
Variable str_ : value -> string.

Definition get_bootstrap_data {Body : Type} (respond : nat -> outcome Body)
    (a : api) : option Body * api :=
  _make_request_with_retry cfg respond faults
    (FPL_BASE_URL +:+ "/bootstrap-static/") "GET" a.

Definition get_player_data {Body : Type} (respond : nat -> outcome Body)
    (player_id : value) (a : api) : option Body * api :=
  _make_request_with_retry cfg respond faults
    (FPL_BASE_URL +:+ "/element-summary/" +:+ str_ player_id +:+ "/")
    "GET" a.

Definition get_team_data {Body : Type} (respond : nat -> outcome Body)
    (a : api) : option Body * api :=
  if negb (configured (TEAM_ID cfg)) then (None, a)
  else
    _make_request_with_retry cfg respond faults
      (FPL_BASE_URL +:+ "/entry/" +:+ text (TEAM_ID cfg) +:+ "/") "GET" a.

(** The loop of [get_team_picks] over the events: the first event flagged
    current or next gives its [id]. *)
Fixpoint find_gameweek (events : list (gmap string value)) : value :=
  match events with
  | [] => VNone
  | event :: rest =>
      if truthy (get event "is_current") then get event "id"
      else if truthy (get event "is_next") then get event "id"
      else find_gameweek rest
  end.

Definition flagged (event : gmap string value) : bool :=
  truthy (get event "is_current") || truthy (get event "is_next").

(** The gameweek read off what [get_bootstrap_data] returned. *)
Definition gameweek_of (bootstrap_data : option bootstrap) : value :=
  match bootstrap_data with
  | Some doc =>
      if nonempty doc then find_gameweek (default [] (doc !! "events"))
      else VNone
  | None => VNone
  end.

Definition picks_url (gameweek : value) : string :=
  FPL_BASE_URL +:+ "/entry/" +:+ text (TEAM_ID cfg) +:+ "/event/"
    +:+ str_ gameweek +:+ "/picks/".

Definition get_team_picks {Body : Type}
    (respond_bootstrap : nat -> outcome bootstrap)
    (respond : nat -> outcome Body) (gameweek : value) (a : api)
    : option Body * api :=
  if negb (configured (TEAM_ID cfg)) then (None, a)
  else
    let '(gameweek1, a1) :=
      match gameweek with
      | VNone =>
          let '(bootstrap_data, a') :=
            get_bootstrap_data respond_bootstrap a in
          (gameweek_of bootstrap_data, a')
      | _ => (gameweek, a)
      end in
    match gameweek1 with
    | VNone => (None, a1)
    | _ =>
        _make_request_with_retry cfg respond faults (picks_url gameweek1)
          "GET" a1
    end.

(** The loop of [get_player_info] over the elements. *)
Fixpoint find_player (players : list (gmap string value))
    (player_id : value) : option (gmap string value) :=
  match players with
  | [] => None
  | player :: rest =>
      if eq_ (get player "id") player_id then Some player
      else find_player rest player_id
  end.

Definition player_of (bootstrap_data : option bootstrap)
    (player_id : value) : option (gmap string value) :=
  match bootstrap_data with
  | Some doc =>
      if nonempty doc
      then find_player (default [] (doc !! "elements")) player_id
      else None
  | None => None
  end.

Definition get_player_info (respond : nat -> outcome bootstrap)
    (player_id : value) (a : api) : option (gmap string value) * api :=
  let '(bootstrap_data, a') := get_bootstrap_data respond a in
  (player_of bootstrap_data player_id, a').

(** The dictionary returned when nothing is known about the player. *)
Definition fit_and_available : gmap string value :=
  {[ "status" := VStr "a"; "news" := VStr "";
     "chance_of_playing_next_round" := VInt 100;
     "chance_of_playing_this_round" := VInt 100 ]}.

(** [c if c is not None else 100] *)
Definition chance_or_100 (c : value) : value :=
  match c with
  | VNone => VInt 100
  | _ => c
  end.

Definition injury_status_of (player_info : option (gmap string value))
    : gmap string value :=
  match player_info with
  | None => fit_and_available
  | Some info =>
      if nonempty info then
        {[ "status" := get_or info "status" (VStr "a");
           "news" := get_or info "news" (VStr "");
           "chance_of_playing_next_round" :=
             chance_or_100 (get info "chance_of_playing_next_round");
           "chance_of_playing_this_round" :=
             chance_or_100 (get info "chance_of_playing_this_round") ]}
      else fit_and_available
  end.

Definition get_player_injury_status (respond : nat -> outcome bootstrap)
    (player_id : value) (a : api) : gmap string value * api :=
  let '(player_info, a') := get_player_info respond player_id a in
  (injury_status_of player_info, a').

(** *** [execute_transfers] *)

(** [int(s)], [None] when it raises [ValueError]. *)
Variable int_ : string -> option Z.

Definition execute_transfers {Body : Type} (respond : nat -> outcome Body)
    (a : api) : bool * api :=
  if negb (configured (TEAM_ID cfg)) then (false, a)
  else
    let '(authenticated, a1) :=
      match authenticated_session a with
      | Some _ => (true, a)
      | None => _authenticate cfg faults a
      end in
    if negb authenticated then (false, a1)
    else
      match int_ (text (TEAM_ID cfg)) with
      | None => (false, a1)
      | Some _ =>
          match authenticated_session a1 with
          | Some c =>
              let '(o, a2) :=
                send respond (FPL_BASE_URL +:+ "/transfers/") "POST" c a1 in
              match o with
              | Response status json =>
                  if (status =? 200)%Z then
                    match json with
                    | Some _ => (true, a2)
                    | None => (false, a2)
                    end
                  else (false, a2)
              | TimeoutError => (false, a2)
              | ClientError => (false, a2)
              end
          | None => (false, a1)
          end
      end.

End Fetch.

(** The clients a program can reach: entering the block on a new client,
    then any of the operations that touch the connections. *)
Inductive reachable : api -> Prop :=
| reach_enter : reachable (aenter init)
| reach_authenticate (cfg : settings) (faults : nat -> local_fault)
    (a : api) :
    reachable a -> reachable (snd (_authenticate cfg faults a))
| reach_request (Body : Type) (cfg : settings)
    (respond : nat -> outcome Body) (faults : nat -> local_fault)
    (url method : string) (a : api) :
    reachable a ->
    reachable (snd (_make_request_with_retry cfg respond faults url
                      method a))
| reach_transfers (Body : Type) (cfg : settings)
    (faults : nat -> local_fault) (int_ : string -> option Z)
    (respond : nat -> outcome Body) (a : api) :
    reachable a ->
    reachable (snd (execute_transfers cfg faults int_ respond a)).

End Endpoints.

(** ** The rest of the performance predictor *)

Module Training.

Import Py MLPredictor.

Definition feature_names : list string :=
  [ "opponent_difficulty"; "minutes_played"; "goals_scored"; "assists";
    "clean_sheet"; "yellow_cards"; "red_cards"; "saves"; "bonus"; "bps";
    "form"; "points_per_game"; "selected_by_percent"; "transfers_in";
    "transfers_out" ].

(** One row of [prepare_features].  A record is read through
    [getattr(record, name, default)]: it is a dictionary of its attributes;
    a boolean attribute is the integer 1 or 0. *)
Definition feature_vector (record : gmap string value) : list value :=
  let attr (k : string) (dflt : value) :=
    or_ (get_or record k dflt) dflt in
  [ attr "opponent_difficulty" (VInt 3);
    attr "minutes_played" (VInt 0);
    attr "goals_scored" (VInt 0);
    attr "assists" (VInt 0);
    (if truthy (attr "clean_sheet" (VInt 0)) then VInt 1 else VInt 0);
    attr "yellow_cards" (VInt 0);
    attr "red_cards" (VInt 0);
    attr "saves" (VInt 0);
    attr "bonus" (VInt 0);
    attr "bps" (VInt 0);
    attr "form" (VFloat fzero);
    attr "points_per_game" (VFloat fzero);
    attr "selected_by_percent" (VFloat fzero);
    attr "transfers_in" (VInt 0);
    attr "transfers_out" (VInt 0) ].

(** [prepare_features]: the rows handed to [np.array]. *)
Definition prepare_features (player_data : list (gmap string value))
    : list (list value) :=
  map feature_vector player_data.





(** The loop of [get_feature_importance]: [importance[i]] for every
    feature, NaN replaced by 0.0; [None] when an index is out of range. *)
Fixpoint importance_items (i : nat) (names : list string)
    (importance : list spec_float) : option (list (string * spec_float)) :=
  match names with
  | [] => Some []
  | feature :: rest =>
      match importance !! i, importance_items (S i) rest importance with
      | Some v, Some items =>
          Some ((feature, if is_nan v then fzero else v) :: items)
      | _, _ => None
      end
  end.

(** [sorted(items, key=lambda item: item[1], reverse=True)]: the stable
    sort by decreasing value. *)
Fixpoint insert_desc (x : string * spec_float)
    (l : list (string * spec_float)) : list (string * spec_float) :=
  match l with
  | [] => [x]
  | y :: rest =>
      if SFltb (snd x) (snd y) then y :: insert_desc x rest
      else x :: y :: rest
  end.

Definition sorted_desc (l : list (string * spec_float))
    : list (string * spec_float) :=
  fold_right insert_desc [] l.

(** [get_feature_importance]; [feature_importances_] is what the attribute
    of the model gives, [None] when reading it raises.  The dictionary
    returned is the list of its items in order. *)
Definition get_feature_importance (p : predictor)
    (feature_importances_ : option (list spec_float))
    : list (string * spec_float) :=
  if negb (is_trained p) then []
  else
    match feature_importances_ with
    | None => []
    | Some importance =>
        match importance_items 0 feature_names importance with
        | None => []
        | Some items => sorted_desc items
        end
    end.

(** Each value is at least the next one. *)
Fixpoint decreasing (l : list (string * spec_float)) : Prop :=
  match l with
  | [] => True
  | x :: rest =>
      match rest with
      | [] => True
      | y :: _ => SFleb (snd y) (snd x) = true
      end
      /\ decreasing rest
  end.

End Training.

(** ** More concrete values *)

Module MoreSamples.

Import Settings Py FPLAPI MLPredictor Endpoints Training Samples.

(** The client after one successful [_authenticate]. *)
Definition logged_in : api := snd (_authenticate cfg_both no_faults entered).

Definition event_11 : gmap string value :=
  {[ "id" := VInt 11; "is_current" := VInt 0; "is_next" := VInt 0 ]}.

Definition event_12 : gmap string value :=
  {[ "id" := VInt 12; "is_current" := VInt 1; "is_next" := VInt 0 ]}.

Definition event_13 : gmap string value :=
  {[ "id" := VInt 13; "is_current" := VInt 0; "is_next" := VInt 1 ]}.

Definition player_7 : gmap string value :=
  {[ "id" := VInt 7; "status" := VStr "i";
     "chance_of_playing_next_round" := VNone ]}.

Definition player_9 : gmap string value :=
  {[ "id" := VInt 9; "status" := VStr "d";
     "chance_of_playing_next_round" := VInt 75 ]}.

Definition bootstrap_doc : bootstrap :=
  {[ "events" := [event_11; event_12; event_13];
     "elements" := [player_7; player_9] ]}.

Definition bootstrap_served : nat -> outcome bootstrap :=
  fun _ => Response 200 (Some bootstrap_doc).

Definition picks_served : nat -> outcome unit :=
  fun _ => Response 200 (Some tt).

(** Every request is answered 200 with the JSON document [null]. *)
Definition null_served : nat -> outcome value :=
  fun _ => Response 200 (Some VNone).

Definition is_none (v : value) : bool :=
  match v with
  | VNone => true
  | _ => false
  end.

(** [str] on the values the samples use. *)
Definition str_sample (v : value) : string :=
  match v with
  | VStr s => s
  | VInt 12 => "12"
  | _ => "None"
  end.

(** [int] on the team id the samples use. *)
Definition int_sample (s : string) : option Z :=
  if String.eqb s "7" then Some 7%Z else None.


(** Fifteen importances, one of them NaN. *)
Definition importances_15 : list spec_float :=
  [ of_Z 3; of_Z 1; S754_nan; of_Z 7; of_Z 2; of_Z 2; of_Z 0; of_Z 5;
    of_Z 1; of_Z 9; of_Z 4; of_Z 6; of_Z 8; of_Z 0; of_Z 3 ].

End MoreSamples.

(** * Properties of the API client *)

Module ClientProperties.

Import Settings Py FPLAPI Samples.

Lemma authenticate_counts (cfg : settings) (faults : nat -> local_fault)
    (a : api) :
  auth_calls (snd (_authenticate cfg faults a)) = S (auth_calls a)
  /\ issued (snd (_authenticate cfg faults a)) = issued a
  /\ session (snd (_authenticate cfg faults a)) = session a.
Proof.
  unfold _authenticate.
  destruct (authenticated_session (count_auth_call a)) as [c|] eqn:Hc;
    destruct (faults (auth_calls a));
    destruct (configured (SESSION_ID cfg) && configured (CSRF_TOKEN cfg));
    destruct (configured (FPL_USERNAME cfg) && configured (FPL_PASSWORD cfg));
    cbn; auto.
Qed.

Lemma authenticate_true_opens (cfg : settings) (faults : nat -> local_fault)
    (a : api) :
  fst (_authenticate cfg faults a) = true ->
  exists c, authenticated_session (snd (_authenticate cfg faults a)) = Some c.
Proof.
  unfold _authenticate.
  destruct (authenticated_session (count_auth_call a)) as [c|] eqn:Hc;
    destruct (faults (auth_calls a));
    destruct (configured (SESSION_ID cfg) && configured (CSRF_TOKEN cfg));
    destruct (configured (FPL_USERNAME cfg) && configured (FPL_PASSWORD cfg));
    cbn; intros H; try discriminate; eauto.
Qed.

(** When a constructor raises, the handler reports failure; the old
    session, already closed, stays in the attribute. *)
Lemma authenticate_open_fault_reports_failure (cfg : settings)
    (faults : nat -> local_fault) (a : api) :
  faults (auth_calls a) = OpenRaises ->
  fst (_authenticate cfg faults a) = false
  /\ authenticated_session (snd (_authenticate cfg faults a))
     = authenticated_session a.
Proof.
  intros Hflt. unfold _authenticate. rewrite Hflt.
  cbn [count_auth_call authenticated_session].
  destruct (authenticated_session a) eqn:Ha;
    destruct (configured (SESSION_ID cfg) && configured (CSRF_TOKEN cfg));
    destruct (configured (FPL_USERNAME cfg) && configured (FPL_PASSWORD cfg));
    cbn; rewrite ?Ha; split; reflexivity.
Qed.

(** C9, as the code has it. A call of [_authenticate] in which neither
    [close()] nor a session constructor raises follows the authentication
    state machine.  The existing authenticated session, if any, is closed
    first and the new one opened after it (the trace grows by the close,
    then the open).  With session id and CSRF token configured the client
    becomes session-authenticated, with the cookie, CSRF and Referer
    headers, whatever the username and password are; with only username
    and password it becomes credential-authenticated; with neither the call
    returns [False], opens nothing, and an unauthenticated client stays
    unauthenticated.  A call in which one of them raises goes to the
    [except] branch: it returns [False], enters no state, opens nothing and
    leaves [authenticated_session] holding what it held, the old session
    being closed already when it is a constructor that raised. *)
Theorem authenticate_state_machine (cfg : settings)
    (faults : nat -> local_fault) (a : api) :
  let r := _authenticate cfg faults a in
  (raises_here cfg faults a = false ->
   (configured (SESSION_ID cfg) && configured (CSRF_TOKEN cfg) = true ->
      fst r = true
      /\ state_of (snd r) = SessionAuthenticated
      /\ exists c,
           authenticated_session (snd r) = Some c
           /\ conn_id c = fresh a
           /\ conn_headers c = session_headers cfg
           /\ trace (snd r) = trace a ++ closes_of a ++ [EvOpen c])
   /\ (configured (SESSION_ID cfg) && configured (CSRF_TOKEN cfg) = false ->
       configured (FPL_USERNAME cfg) && configured (FPL_PASSWORD cfg) = true ->
      fst r = true
      /\ state_of (snd r) = CredentialAuthenticated
      /\ exists c,
           authenticated_session (snd r) = Some c
           /\ conn_id c = fresh a
           /\ conn_headers c = credential_headers
           /\ trace (snd r) = trace a ++ closes_of a ++ [EvOpen c])
   /\ (configured (SESSION_ID cfg) && configured (CSRF_TOKEN cfg) = false ->
       configured (FPL_USERNAME cfg) && configured (FPL_PASSWORD cfg) = false ->
      fst r = false
      /\ authenticated_session (snd r) = authenticated_session a
      /\ trace (snd r) = trace a ++ closes_of a
      /\ (state_of a = Unauthenticated ->
          state_of (snd r) = Unauthenticated)))
  /\ (raises_here cfg faults a = true ->
      fst r = false
      /\ authenticated_session (snd r) = authenticated_session a
      /\ state_of (snd r) = state_of a
      /\ (faults (auth_calls a) = CloseRaises -> trace (snd r) = trace a)
      /\ (faults (auth_calls a) = OpenRaises ->
          trace (snd r) = trace a ++ closes_of a)).
Proof.
  intros r. subst r.
  unfold raises_here, _authenticate, closes_of, state_of.
  cbn [count_auth_call authenticated_session].
  destruct (faults (auth_calls a));
    destruct (authenticated_session a) as [old|] eqn:Ha;
    destruct (configured (SESSION_ID cfg) && configured (CSRF_TOKEN cfg));
    destruct (configured (FPL_USERNAME cfg) && configured (FPL_PASSWORD cfg));
    cbn; rewrite ?Ha;
    (split; [intros Hraise; try discriminate Hraise
            | intros Hraise; try discriminate Hraise]);
    repeat split; intros;
    try discriminate; try assumption;
    rewrite ?app_nil_r; try reflexivity;
    try (eexists; repeat split; rewrite <- ?app_assoc; reflexivity).
Qed.

(** C9, as the claim states it, fails where a library call raises: with
    session id and CSRF token configured and the session constructor
    raising, the call returns [False] and the client stays
    unauthenticated. *)
Lemma authenticate_raising_constructor_enters_no_state :
  configured (SESSION_ID cfg_both) && configured (CSRF_TOKEN cfg_both) = true
  /\ fst (_authenticate cfg_both constructor_faults entered) = false
  /\ state_of (snd (_authenticate cfg_both constructor_faults entered))
     = Unauthenticated.
Proof. repeat split. Qed.

Lemma authenticate_state_machine_witness :
  raises_here cfg_both no_faults entered = false
  /\ raises_here cfg_both constructor_faults entered = true
  /\ fst (_authenticate cfg_both no_faults entered) = true
  /\ state_of (snd (_authenticate cfg_both no_faults entered))
     = SessionAuthenticated
  /\ fst (_authenticate cfg_both constructor_faults entered) = false.
Proof.
  pose proof (authenticate_state_machine cfg_both no_faults entered)
    as [Hok _].
  pose proof (authenticate_state_machine cfg_both constructor_faults entered)
    as [_ Hraise].
  destruct (Hok eq_refl) as [Hs _].
  destruct (Hs eq_refl) as (H1 & H2 & _).
  destruct (Hraise eq_refl) as (H3 & _).
  split; [reflexivity |]. split; [reflexivity |].
  split; [exact H1 |]. split; [exact H2 | exact H3].
Defined.


Section RetryProperties.

Context {Body : Type}.
Variable cfg : settings.
Variable respond : nat -> outcome Body.
Variable faults : nat -> local_fault.
Variable url method : string.

Abbreviation loop := (attempts_loop cfg respond faults url method).
Abbreviation run := (_make_request_with_retry cfg respond faults url method).


(** One attempt failing the ordinary way: sleep the delay and double it
    unless this was the last attempt, which gives up. *)
Lemma loop_transient (s : conn) (attempt : nat) (rest : list nat)
    (d : Z) (a : api) :
  supported method ->
  transient method (respond (issued a)) ->
  loop s (attempt :: rest) d a
  = if (attempt <? max_retries - 1)%nat
    then loop s rest (d * 2) (sleep d (primary method url s a))
    else (None, primary method url s a).
Proof.
  intros Hm Ht. unfold primary. cbn [attempts_loop]. unfold send.
  destruct (respond (issued a)) as [status json | |]; cbn in Ht.
  - destruct Ht as (H200 & H429 & H401).
    apply Z.eqb_neq in H200, H429.
    destruct Hm as [Hm | Hm]; rewrite Hm; cbn [String.eqb Ascii.eqb Bool.eqb];
      rewrite H200, ?H429.
    + reflexivity.
    + specialize (H401 Hm). apply Z.eqb_neq in H401. rewrite H401.
      reflexivity.
  - destruct Hm as [Hm | Hm]; rewrite Hm; reflexivity.
  - destruct Hm as [Hm | Hm]; rewrite Hm; reflexivity.
Qed.

(** Without a 401 answered to a POST, every attempt issues one request. *)
Lemma loop_issues_at_most (s : conn) (attempts : list nat) :
  (upper method = "POST" -> forall n j, respond n <> Response 401 j) ->
  forall (d : Z) (a : api),
    (issued (snd (loop s attempts d a)) <= issued a + length attempts)%nat.
Proof.
  intros H401. induction attempts as [| attempt rest IH]; intros d a.
  - cbn. lia.
  - assert (Hback : forall d' a',
               issued a' = S (issued a) ->
               (issued (snd (if (attempt <? max_retries - 1)%nat
                             then loop s rest (d * 2) (sleep d' a')
                             else (None, a')))
                <= issued a + S (length rest))%nat).
    { intros d' a' Ha'. destruct (attempt <? max_retries - 1)%nat.
      - specialize (IH (d * 2)%Z (sleep d' a')). cbn in IH. lia.
      - cbn. lia. }
    assert (Hrate : forall a',
               issued a' = S (issued a) ->
               (issued (snd (loop s rest (d * 2) (sleep (d * 2) a')))
                <= issued a + S (length rest))%nat).
    { intros a' Ha'. specialize (IH (d * 2)%Z (sleep (d * 2) a')).
      cbn in IH. lia. }
    cbn [attempts_loop length]. unfold send.
    destruct (String.eqb (upper method) "GET") eqn:Hget.
    + destruct (respond (issued a)) as [status json | |];
        [ destruct (status =? 200)%Z;
          [ destruct json; [cbn; lia |]
          | destruct (status =? 429)%Z ] | | ];
        first [ apply Hback; reflexivity | apply Hrate; reflexivity ].
    + destruct (String.eqb (upper method) "POST") eqn:Hpost; [| cbn; lia].
      apply String.eqb_eq in Hpost.
      destruct (respond (issued a)) as [status json | |] eqn:Hr;
        [ destruct (status =? 200)%Z;
          [ destruct json; [cbn; lia |]
          | destruct (status =? 401)%Z eqn:Hs;
            [ apply Z.eqb_eq in Hs; subst status;
              exfalso; exact (H401 Hpost _ _ Hr)
            | destruct (status =? 429)%Z ] ] | | ];
        first [ apply Hback; reflexivity | apply Hrate; reflexivity ].
Qed.



(** C2. A status other than 200 and 429 (and other than 401 on a POST), a
    timeout or any other exception consumes the attempt: the client sleeps
    the current delay and doubles it, unless the attempt was the last one,
    which returns [None].  When every request fails this way exactly three
    requests are made, with sleeps of 1 and 2 seconds between them, and the
    result is [None]; and whatever the answers are, as long as no POST is
    answered 401, no more than three requests are made. *)
Theorem transient_failures_exhaust_three_attempts (s : conn) :
  supported method ->
  (forall attempt rest d a,
      transient method (respond (issued a)) ->
      loop s (attempt :: rest) d a
      = if (attempt <? max_retries - 1)%nat
        then loop s rest (d * 2) (sleep d (primary method url s a))
        else (None, primary method url s a))
  /\ (forall a,
        session a = Some s ->
        (forall n, transient method (respond n)) ->
        run a
        = (None,
           primary method url s
             (sleep 2 (primary method url s
                (sleep 1 (primary method url s a)))))
        /\ issued (snd (run a)) = (issued a + 3)%nat)
  /\ (forall a,
        (upper method = "POST" -> forall n j, respond n <> Response 401 j) ->
        (issued (snd (run a)) <= issued a + 3)%nat).
Proof.
  intros Hm. split; [| split].
  - intros attempt rest d a Ht. exact (loop_transient s attempt rest d a Hm Ht).
  - intros a Hs Hall.
    assert (Hrun : run a
        = (None,
           primary method url s
             (sleep 2 (primary method url s
                (sleep 1 (primary method url s a)))))).
    { unfold _make_request_with_retry. rewrite Hs.
      unfold max_retries. cbn [seq].
      rewrite !(fun attempt rest d a0 =>
                  loop_transient s attempt rest d a0 Hm (Hall (issued a0))).
      reflexivity. }
    split; [exact Hrun |]. rewrite Hrun. unfold primary.
    destruct (String.eqb (upper method) "GET"); cbn; lia.
  - intros a H401. unfold _make_request_with_retry.
    destruct (session a) as [s0 |]; [| cbn; lia].
    pose proof (loop_issues_at_most s0 (seq 0 max_retries) H401 1%Z a) as Hb.
    cbn in Hb |- *. lia.
Qed.

(** C3, as the code has it. A POST answered 401 calls [_authenticate]
    once.  If that fails the call returns [None] with no further request.
    If it succeeds the request is sent once more, on the new authenticated
    session: a 200 gives its body, any other status gives [None] with no
    further request, and a request that raises goes to the exception
    handlers, which consume the attempt and go on with the retry loop. *)
Theorem unauthorized_write_reauthenticates_once (s : conn) (attempt : nat)
    (rest : list nat) (d : Z) (a : api) (j : option Body) :
  upper method = "POST" ->
  respond (issued a) = Response 401 j ->
  let a1 := sent "POST" (session_to_use s a) url a in
  let ok := fst (_authenticate cfg faults a1) in
  let a2 := snd (_authenticate cfg faults a1) in
  auth_calls a2 = S (auth_calls a)
  /\ issued a2 = S (issued a)
  /\ (ok = false -> loop s (attempt :: rest) d a = (None, a2))
  /\ (ok = true ->
      exists c,
        authenticated_session a2 = Some c
        /\ (forall body,
              respond (S (issued a)) = Response 200 (Some body) ->
              loop s (attempt :: rest) d a
              = (Some body, sent "POST" c url a2))
        /\ (forall status2 json2,
              status2 <> 200%Z ->
              respond (S (issued a)) = Response status2 json2 ->
              loop s (attempt :: rest) d a = (None, sent "POST" c url a2))
        /\ (raised (respond (S (issued a))) ->
            loop s (attempt :: rest) d a
            = if (attempt <? max_retries - 1)%nat
              then loop s rest (d * 2) (sleep d (sent "POST" c url a2))
              else (None, sent "POST" c url a2))).
Proof.
  intros Hm Hr a1 ok a2.
  destruct (authenticate_counts cfg faults a1) as (Hcalls & Hissued & _).
  fold a2 in Hcalls, Hissued. cbn in Hcalls, Hissued.
  assert (Hloop : loop s (attempt :: rest) d a
     = if ok then
         match authenticated_session a2 with
         | Some c =>
             match respond (issued a2) with
             | Response status2 json2 =>
                 if (status2 =? 200)%Z then
                   match json2 with
                   | Some body => (Some body, sent "POST" c url a2)
                   | None =>
                       if (attempt <? max_retries - 1)%nat
                       then loop s rest (d * 2)
                              (sleep d (sent "POST" c url a2))
                       else (None, sent "POST" c url a2)
                   end
                 else (None, sent "POST" c url a2)
             | _ =>
                 if (attempt <? max_retries - 1)%nat
                 then loop s rest (d * 2) (sleep d (sent "POST" c url a2))
                 else (None, sent "POST" c url a2)
             end
         | None => (None, a2)
         end
       else (None, a2)).
  { cbn [attempts_loop]. unfold send. rewrite Hm, Hr.
    cbn [String.eqb Ascii.eqb Bool.eqb Z.eqb Pos.eqb].
    fold a1. subst ok a2.
    destruct (_authenticate cfg faults a1) as [ok' a2']. cbn [fst snd].
    destruct ok'; [| reflexivity].
    destruct (authenticated_session a2'); [| reflexivity].
    destruct (respond (issued a2')) as [st js | |]; reflexivity. }
  rewrite Hissued in Hloop.
  repeat split; try assumption.
  - intros Hok. rewrite Hloop, Hok. reflexivity.
  - intros Hok.
    destruct (authenticate_true_opens cfg faults a1 Hok) as [c Hc].
    fold a2 in Hc. exists c. rewrite Hloop, Hok, Hc.
    repeat split; try assumption.
    + intros body Hb. rewrite Hb. reflexivity.
    + intros status2 json2 Hne Hb. rewrite Hb.
      apply Z.eqb_neq in Hne. rewrite Hne. reflexivity.
    + intros [Hb | [Hb | Hb]]; rewrite Hb; reflexivity.
Qed.

End RetryProperties.



Lemma transient_failures_exhaust_three_attempts_witness :
  supported "GET"
  /\ (forall n, transient "GET" (sustained_503 n))
  /\ fst (_make_request_with_retry cfg_both sustained_503 no_faults
            bootstrap_url "GET" entered) = None
  /\ issued (snd (_make_request_with_retry cfg_both sustained_503 no_faults
                    bootstrap_url "GET" entered)) = 3%nat.
Proof.
  assert (H1 : supported "GET") by (left; reflexivity).
  assert (H2 : forall n, transient "GET" (sustained_503 n))
    by (intros n; cbn; repeat split; discriminate).
  destruct (transient_failures_exhaust_three_attempts cfg_both sustained_503
              no_faults bootstrap_url "GET" plain H1) as (_ & Hall & _).
  destruct (Hall entered eq_refl H2) as [Hrun Hissued].
  split; [exact H1 | split; [exact H2 | split; [| exact Hissued]]].
  rewrite Hrun. reflexivity.
Defined.

(** C3, as the claim states it, fails: the POST is answered 401, the
    client re-authenticates, the retried request times out (so it does not
    return 200), and the call neither returns [None] nor stops retrying: the
    next attempt is made and its body returned. *)
Lemma unauthorized_retry_timeout_retries_again :
  unauthorized_then_timeout 1 = TimeoutError
  /\ fst (_make_request_with_retry cfg_both unauthorized_then_timeout
            no_faults transfers_url "POST" entered) = Some tt
  /\ issued (snd (_make_request_with_retry cfg_both unauthorized_then_timeout
                    no_faults transfers_url "POST" entered)) = 3%nat.
Proof. repeat split. Qed.

Lemma unauthorized_write_reauthenticates_once_witness :
  upper "POST" = "POST"
  /\ unauthorized_then_ok (issued entered) = Response 401 None
  /\ attempts_loop cfg_both unauthorized_then_ok no_faults transfers_url
       "POST" plain [0; 1; 2]%nat 1%Z entered
     = (Some tt,
        sent "POST"
          {| conn_id := 1; conn_headers := session_headers cfg_both |}
          transfers_url
          (snd (_authenticate cfg_both no_faults
                  (sent "POST" plain transfers_url entered)))).
Proof.
  split; [reflexivity | split; [reflexivity |]].
  destruct (unauthorized_write_reauthenticates_once cfg_both
              unauthorized_then_ok no_faults transfers_url "POST" plain
              0%nat [1; 2]%nat 1%Z entered None eq_refl eq_refl)
    as (_ & _ & _ & Hok).
  destruct (Hok eq_refl) as (c & Hc & H200 & _).
  rewrite (H200 tt eq_refl). injection Hc as <-. reflexivity.
Defined.


(** *** Fixture difficulty *)

Lemma difficulty_of_scan (l : list (gmap string value))
    (team_id gameweek : value) :
  difficulty_of (Some l) team_id gameweek
  = scan_fixtures l team_id gameweek.
Proof. destruct l; reflexivity. Qed.

(** Fixtures that do not involve the team in the gameweek are passed over. *)
Lemma scan_fixtures_skip (pre rest : list (gmap string value))
    (team_id gameweek : value) :
  (forall g, In g pre -> involves g team_id gameweek = false) ->
  scan_fixtures (pre ++ rest) team_id gameweek
  = scan_fixtures rest team_id gameweek.
Proof.
  induction pre as [| g pre IH]; intros Hpre; [reflexivity |].
  cbn [app scan_fixtures].
  pose proof (Hpre g (or_introl eq_refl)) as Hg.
  unfold involves, at_home, away in Hg.
  destruct (eq_ (get g "event") gameweek);
    destruct (eq_ (get g "team_h") team_id);
    destruct (eq_ (get g "team_a") team_id);
    try discriminate Hg;
    apply IH; intros g' Hin; apply Hpre; right; exact Hin.
Qed.

(** C7, as the code has it. The first fetched fixture, in list order, that
    is in the gameweek and has the team on either side decides: the result
    is its home-side difficulty when the team is its home side and its
    away-side difficulty otherwise (3 when the fixture carries no such
    field).  The result is 3 when no fixture involves the team in the
    gameweek, and when the fixtures could not be fetched. *)
Theorem fixture_difficulty_first_match (cfg : settings)
    (respond : nat -> outcome (list (gmap string value)))
    (faults : nat -> local_fault) (team_id gameweek : value) (a : api) :
  let fetched := fst (get_fixtures cfg respond faults a) in
  let result :=
    fst (get_fixture_difficulty cfg respond faults team_id gameweek a) in
  (forall pre f post,
      fetched = Some (pre ++ f :: post) ->
      (forall g, In g pre -> involves g team_id gameweek = false) ->
      (at_home f team_id gameweek = true ->
       result = get_or f "team_h_difficulty" (VInt 3))
      /\ (at_home f team_id gameweek = false ->
          away f team_id gameweek = true ->
          result = get_or f "team_a_difficulty" (VInt 3)))
  /\ (forall l,
        fetched = Some l ->
        (forall g, In g l -> involves g team_id gameweek = false) ->
        result = VInt 3)
  /\ (fetched = None -> result = VInt 3).
Proof.
  intros fetched result. subst fetched result.
  unfold get_fixture_difficulty.
  destruct (get_fixtures cfg respond faults a) as [fixtures a'].
  cbn [fst]. split; [| split].
  - intros pre f post -> Hpre. rewrite difficulty_of_scan.
    rewrite (scan_fixtures_skip pre (f :: post) team_id gameweek Hpre).
    cbn [scan_fixtures]. unfold at_home, away.
    destruct (eq_ (get f "event") gameweek);
      destruct (eq_ (get f "team_h") team_id);
      destruct (eq_ (get f "team_a") team_id);
      split; intros; try discriminate; reflexivity.
  - intros l -> Hl. rewrite difficulty_of_scan.
    rewrite <- (app_nil_r l).
    rewrite (scan_fixtures_skip l [] team_id gameweek Hl). reflexivity.
  - intros ->. reflexivity.
Qed.

(** C7, as the claim states it, fails on a double gameweek: team 1 is the
    away side of a fixture of gameweek 1 whose away difficulty is 5, and
    the result is 2, the home difficulty of the earlier fixture. *)
Lemma double_gameweek_first_fixture_wins :
  In fixture_3v1 [fixture_1v2; fixture_3v1]
  /\ away fixture_3v1 (VInt 1) (VInt 1) = true
  /\ get_or fixture_3v1 "team_a_difficulty" (VInt 3) = VInt 5
  /\ fst (get_fixture_difficulty cfg_both
            (fixtures_served [fixture_1v2; fixture_3v1]) no_faults
            (VInt 1) (VInt 1) entered) = VInt 2.
Proof.
  split; [right; left; reflexivity |].
  split; [vm_compute; reflexivity |].
  split; vm_compute; reflexivity.
Qed.

Lemma fixture_difficulty_first_match_witness :
  fst (get_fixture_difficulty cfg_both
         (fixtures_served [fixture_1v2; fixture_3v4]) no_faults
         (VInt 4) (VInt 1) entered) = VInt 3
  /\ fst (get_fixture_difficulty cfg_both
            (fixtures_served [fixture_1v2; fixture_3v4]) no_faults
            (VInt 5) (VInt 1) entered) = VInt 3.
Proof.
  split.
  - destruct (fixture_difficulty_first_match cfg_both
                (fixtures_served [fixture_1v2; fixture_3v4]) no_faults
                (VInt 4) (VInt 1) entered) as (Hfirst & _ & _).
    destruct (Hfirst [fixture_1v2] fixture_3v4 [] eq_refl) as [_ Haway].
    + intros g [<- | []]. vm_compute. reflexivity.
    + rewrite Haway; vm_compute; reflexivity.
  - destruct (fixture_difficulty_first_match cfg_both
                (fixtures_served [fixture_1v2; fixture_3v4]) no_faults
                (VInt 5) (VInt 1) entered) as (_ & Hnone & _).
    apply (Hnone [fixture_1v2; fixture_3v4] eq_refl).
    intros g [<- | [<- | []]]; vm_compute; reflexivity.
Defined.

End ClientProperties.

(** * Properties of the performance predictor *)

Module PredictorProperties.

Import Py MLPredictor Samples.

Lemma float_gt0_nonneg (f : spec_float) :
  SFltb fzero f = true -> SFleb fzero f = true.
Proof.
  unfold SFltb, SFleb, fzero.
  destruct f as [sg | sg | | sg m e]; cbn; try discriminate;
    try (destruct sg; cbn; congruence).
Qed.

(** Whatever [max(0, v)] returns is not negative. *)
Lemma max0_nonneg (v r : value) : max0 v = Returns r -> nonneg r.
Proof.
  unfold max0. destruct v as [| z | f | s]; cbn; try discriminate.
  - destruct (0 <? z)%Z eqn:Hz; intros [= <-]; cbn; [| lia].
    apply Z.ltb_lt in Hz. lia.
  - destruct (SFltb fzero f) eqn:Hf; intros [= <-]; cbn; [| lia].
    apply float_gt0_nonneg. exact Hf.
Qed.

Lemma max0_float_returns (f : spec_float) :
  exists r, max0 (VFloat f) = Returns r.
Proof. unfold max0. cbn. eauto. Qed.

Lemma max0_numeric_form_returns (player_stats : gmap string value) :
  numeric_form player_stats ->
  exists r, max0 (get_or player_stats "form" (VInt 0)) = Returns r.
Proof.
  unfold numeric_form, get_or, max0.
  destruct (player_stats !! "form") as [[| z | f | s] |]; cbn;
    intros H; try contradiction; eauto.
Qed.

(** With a [form] entry that is missing or numeric, every path through
    [predict_performance] returns, and what it returns is not negative:
    the model may be untrained, raise, or answer any number, NaN and the
    infinities included. *)
Lemma predict_performance_nonneg (p : predictor)
    (player_stats : gmap string value) (opponent_difficulty : value) :
  numeric_form player_stats ->
  exists r,
    predict_performance p player_stats opponent_difficulty = Returns r
    /\ nonneg r.
Proof.
  intros Hform. unfold predict_performance.
  destruct (is_trained p); cbn [negb].
  - destruct (max0_numeric_form_returns player_stats Hform) as [r0 Hr0].
    match goal with
    | |- context [match ?t with Returns _ => _ | Raises _ => _ end] =>
        destruct t as [v | e] eqn:Htried
    end.
    + exists v. split; [reflexivity |].
      destruct (feature_values player_stats opponent_difficulty)
        as [vs | e1]; cbn in Htried; [| discriminate].
      destruct (np_row vs) as [features | e2]; cbn in Htried;
        [| discriminate].
      destruct (invalid_features features).
      * exact (max0_nonneg (get_or player_stats "form" (VInt 0)) v Htried).
      * destruct (model_predict p features) as [prediction |];
          [| discriminate].
        exact (max0_nonneg (VFloat prediction) v Htried).
    + exists r0. split; [exact Hr0 | exact (max0_nonneg _ _ Hr0)].
  - unfold numeric_form in Hform. unfold get_or.
    destruct (player_stats !! "form") as [[| z | f | s] |]; cbn;
      try contradiction.
    + rewrite Hform. cbn.
      destruct (max0_float_returns (fmul (of_Z z) f1_2)) as [r Hr].
      exists r. split; [exact Hr | exact (max0_nonneg _ _ Hr)].
    + destruct (max0_float_returns (fmul f f1_2)) as [r Hr].
      exists r. split; [exact Hr | exact (max0_nonneg _ _ Hr)].
    + exists (VInt 0). split; [vm_compute; reflexivity | cbn; lia].
Qed.

(** C10. The claim fails where [form] is present and [None]: the
    untrained fallback multiplies it by 1.2 outside any [try], and the call
    raises [TypeError] instead of returning a number; with a trained model
    that raises, the handler's [max(0, None)] raises as well. *)
Theorem predict_performance_none_form_raises :
  predict_performance untrained {[ "form" := VNone ]} (VInt 3)
  = Raises TypeError
  /\ predict_performance
       {| is_trained := true; model_predict := fun _ => None |}
       {[ "form" := VNone ]} (VInt 3)
     = Raises TypeError.
Proof. split; vm_compute; reflexivity. Qed.

(** The cases of [tests/test_ml_predictor.py]: form 5.0 untrained gives
    6.0, and a trained model answering NaN gives 0. *)
Lemma predict_performance_tests :
  predict_performance untrained {[ "form" := VFloat (of_Z 5) ]} (VInt 3)
  = Returns (VFloat float_6_0)
  /\ predict_performance (trained_answering S754_nan)
       {[ "form" := VFloat (of_Z 5) ]} (VInt 3)
     = Returns (VInt 0).
Proof. split; vm_compute; reflexivity. Qed.

End PredictorProperties.

(** * Properties of the transfer decision engine *)

Module EngineProperties.

Import Py TransferEngine Samples.

(** C4. A player is available exactly when the status is none of
    injured, suspended, unavailable and the chance of playing the next
    round is absent or at least 75.  A missing status counts as available
    and a missing chance as eligible; an injured player is never available,
    and a chance below 75 excludes a player whatever the status. *)
Theorem is_player_available_spec (p : PlayerSnapshot) :
  (is_player_available p = true <->
     (status p <> Some injured /\ status p <> Some suspended
      /\ status p <> Some unavailable)
     /\ (chance_of_playing_next_round p = None
         \/ exists c, chance_of_playing_next_round p = Some c
                      /\ (75 <= c)%Z))
  /\ (status p = None ->
      is_player_available p
      = match chance_of_playing_next_round p with
        | None => true
        | Some c => (75 <=? c)%Z
        end)
  /\ (chance_of_playing_next_round p = None ->
      status p <> Some injured -> status p <> Some suspended ->
      status p <> Some unavailable ->
      is_player_available p = true)
  /\ (status p = Some injured -> is_player_available p = false)
  /\ (forall c, chance_of_playing_next_round p = Some c -> (c < 75)%Z ->
      is_player_available p = false).
Proof.
  destruct p as [st chance price h]. unfold is_player_available.
  cbn [status chance_of_playing_next_round].
  split; [| split; [| split; [| split]]].
  - split.
    + intros H. apply andb_true_iff in H as [Hst Hch]. split.
      * destruct st as [[] |]; cbn in Hst; try discriminate;
          repeat split; discriminate.
      * destruct chance as [c |]; [right | left; reflexivity].
        exists c. split; [reflexivity |]. apply Z.leb_le. exact Hch.
    + intros [(Hi & Hs & Hu) Hch]. apply andb_true_iff. split.
      * destruct st as [[] |]; cbn; congruence.
      * destruct Hch as [-> | (c & -> & Hc)]; [reflexivity |].
        apply Z.leb_le. exact Hc.
  - intros ->. reflexivity.
  - intros -> Hi Hs Hu. destruct st as [[] |]; cbn; congruence.
  - intros ->. reflexivity.
  - intros c -> Hc. apply andb_false_iff. right. apply Z.leb_gt. exact Hc.
Qed.

Lemma is_player_available_spec_witness :
  is_player_available (snapshot None (Some 100%Z) 50 []) = true
  /\ is_player_available (snapshot (Some available) None 50 []) = true
  /\ is_player_available (snapshot (Some injured) (Some 0%Z) 50 []) = false
  /\ is_player_available (snapshot (Some available) (Some 50%Z) 50 [])
     = false.
Proof.
  split; [| split; [| split]].
  - rewrite (proj1 (proj2 (is_player_available_spec
                             (snapshot None (Some 100%Z) 50 []))) eq_refl).
    reflexivity.
  - apply (proj1 (proj2 (proj2 (is_player_available_spec
                                  (snapshot (Some available) None 50 []))))
             eq_refl); discriminate.
  - exact (proj1 (proj2 (proj2 (proj2 (is_player_available_spec
             (snapshot (Some injured) (Some 0%Z) 50 []))))) eq_refl).
  - apply (proj2 (proj2 (proj2 (proj2 (is_player_available_spec
             (snapshot (Some available) (Some 50%Z) 50 []))))) 50%Z eq_refl).
    lia.
Defined.

(** C5. The value of a player is the expected points divided by the
    price in currency units, [expected_points / (price / 10)]; a price of
    zero gives 0 and no division is attempted, whatever the expected
    points; a price of 50 with 10 expected points gives exactly 2.0. *)
Theorem calculate_player_value_spec (unlisted : spec_float)
    (trained : bool) (predicted : spec_float) (p : PlayerSnapshot)
    (difficulty : Z) :
  let expected_points :=
    calculate_expected_points unlisted trained predicted p difficulty in
  let value :=
    calculate_player_value unlisted trained predicted p difficulty in
  (now_cost p = 0%Z -> value = Returns fzero)
  /\ (now_cost p <> 0%Z ->
      value = bind (truediv (of_Z (now_cost p)) (of_Z 10))
                   (truediv expected_points))
  /\ (forall ep, player_value 0 ep = Returns fzero)
  /\ player_value 50 (of_Z 10) = Returns float_2_0.
Proof.
  intros expected_points value. subst expected_points value.
  unfold calculate_player_value, player_value.
  split; [| split; [| split]].
  - intros ->. reflexivity.
  - intros Hne. apply Z.eqb_neq in Hne. rewrite Hne. reflexivity.
  - intros ep. reflexivity.
  - vm_compute. reflexivity.
Qed.

Lemma calculate_player_value_spec_witness :
  calculate_player_value fzero false fzero
    (snapshot (Some available) None 0 [5; 7; 3]%Z) 3 = Returns fzero
  /\ calculate_player_value fzero true (of_Z 10)
       (snapshot (Some available) None 50 []) 3 = Returns float_2_0.
Proof.
  split.
  - exact (proj1 (calculate_player_value_spec fzero false fzero
                    (snapshot (Some available) None 0 [5; 7; 3]%Z) 3)
             eq_refl).
  - rewrite (proj1 (proj2 (calculate_player_value_spec fzero true (of_Z 10)
                             (snapshot (Some available) None 50 []) 3))).
    + vm_compute. reflexivity.
    + discriminate.
Defined.

(** [history[-3:]] keeps the last three entries. *)
Lemma recent3_last_three (h : list Z) (x y z : Z) :
  recent3 (h ++ [x; y; z]) = [x; y; z].
Proof.
  unfold recent3. rewrite length_app. cbn [length].
  replace (length h + 3 - 3)%nat with (length h) by lia.
  rewrite skipn_app, skipn_all, Nat.sub_diag. reflexivity.
Qed.

(** C6. When the predictor is untrained, or answers a number that is not
    finite, the expected points are the fallback: 0 for an empty history,
    and otherwise the average of the most recent three total-points values
    times the difficulty multiplier, which is 1.2 at difficulty 3; the
    history 5, 7, 3 at difficulty 3 gives exactly 6.0. *)
Theorem expected_points_fallback (unlisted : spec_float) (trained : bool)
    (predicted : spec_float) (p : PlayerSnapshot) (difficulty : Z) :
  trained = false \/ is_finite predicted = false ->
  calculate_expected_points unlisted trained predicted p difficulty
  = fallback_points unlisted (history p) difficulty
  /\ (history p = [] -> fallback_points unlisted (history p) difficulty
                        = fzero)
  /\ (forall h x y z,
        history p = h ++ [x; y; z] ->
        fallback_points unlisted (history p) difficulty
        = fmul (fdiv (of_Z (x + y + z)) (of_Z 3))
               (difficulty_multiplier unlisted difficulty))
  /\ difficulty_multiplier unlisted 3 = float_1_2
  /\ fallback_points unlisted [5; 7; 3]%Z 3 = float_6_0.
Proof.
  intros Hfall. split; [| split; [| split; [| split]]].
  - unfold calculate_expected_points.
    destruct Hfall as [-> | ->]; [reflexivity |].
    rewrite andb_false_r. reflexivity.
  - intros ->. reflexivity.
  - intros h x y z ->. unfold fallback_points.
    rewrite recent3_last_three. cbn [sum_Z fold_right length].
    replace (x + (y + (z + 0)))%Z with (x + y + z)%Z by lia. reflexivity.
  - vm_compute. reflexivity.
  - vm_compute. reflexivity.
Qed.

Lemma expected_points_fallback_witness :
  calculate_expected_points fzero false fzero
    (snapshot (Some available) None 50 [5; 7; 3]%Z) 3 = float_6_0
  /\ calculate_expected_points fzero true (S754_infinity false)
       (snapshot (Some available) None 50 []) 3 = fzero.
Proof.
  split.
  - rewrite (proj1 (expected_points_fallback fzero false fzero
                      (snapshot (Some available) None 50 [5; 7; 3]%Z) 3
                      (or_introl eq_refl))).
    vm_compute. reflexivity.
  - rewrite (proj1 (expected_points_fallback fzero true (S754_infinity false)
                      (snapshot (Some available) None 50 []) 3
                      (or_intror eq_refl))).
    reflexivity.
Defined.

(** C8. Recording a transfer on a store that does not fault makes one
    [add] and one [commit]: the record, and nothing else, joins the
    committed records.  When [add] faults there is one [rollback] and no
    [commit], the committed records are unchanged, nothing stays pending,
    one error is logged and the call returns. *)
Theorem record_transfer_commits_or_rolls_back (flt : store_faults)
    (r : TransferRecord) (s : store) :
  pending s = [] ->
  let s' := fst (record_transfer flt r s) in
  let errors := snd (record_transfer flt r s) in
  (add_raises flt = false -> commit_raises flt = false ->
     calls s' = calls s ++ [Add r; Commit]
     /\ committed s' = committed s ++ [r]
     /\ pending s' = []
     /\ errors = 0%nat)
  /\ (add_raises flt = true ->
      calls s' = calls s ++ [Add r; Rollback]
      /\ count_calls is_rollback s' = S (count_calls is_rollback s)
      /\ count_calls is_commit s' = count_calls is_commit s
      /\ committed s' = committed s
      /\ pending s' = []
      /\ errors = 1%nat).
Proof.
  intros Hpending s' errors. subst s' errors.
  unfold record_transfer, add, commit, rollback, called, count_calls.
  split.
  - intros -> ->. cbn. rewrite Hpending, <- app_assoc. repeat split.
  - intros ->. cbn. rewrite <- app_assoc. cbn.
    rewrite !List.filter_app, !length_app. cbn. repeat split; lia.
Qed.

Lemma record_transfer_commits_or_rolls_back_witness :
  committed (fst (record_transfer no_store_faults transfer_13 empty_store))
  = [transfer_13]
  /\ calls (fst (record_transfer add_fault transfer_13 empty_store))
     = [Add transfer_13; Rollback]
  /\ committed (fst (record_transfer add_fault transfer_13 empty_store))
     = [].
Proof.
  pose proof (record_transfer_commits_or_rolls_back no_store_faults
                transfer_13 empty_store eq_refl) as [Hok _].
  pose proof (record_transfer_commits_or_rolls_back add_fault
                transfer_13 empty_store eq_refl) as [_ Hfault].
  destruct (Hok eq_refl eq_refl) as (_ & Hc & _).
  destruct (Hfault eq_refl) as (Hcalls & _ & _ & Hc' & _).
  split; [exact Hc | split; [exact Hcalls | exact Hc']].
Defined.

End EngineProperties.

(** * Properties of the connection life cycle *)

Module LifecycleProperties.

Import Settings Py FPLAPI Endpoints.

Lemma live_after_app (tr1 tr2 : list event) (opened : gset nat) :
  live_after opened (tr1 ++ tr2) = live_after (live_after opened tr1) tr2.
Proof.
  revert opened. induction tr1 as [| e tr1 IH]; intros opened; [reflexivity |].
  destruct e; cbn; apply IH.
Qed.

Lemma live_sleep (d : Z) (a : api) : live (sleep d a) = live a.
Proof. unfold live, sleep, log. cbn. rewrite live_after_app. reflexivity. Qed.

Lemma live_sent (verb : string) (c : conn) (url : string) (a : api) :
  live (sent verb c url a) = live a.
Proof. unfold live, sent. cbn. rewrite live_after_app. reflexivity. Qed.

Lemma live_close (c : conn) (a : api) :
  live (close c a) = live a ∖ {[conn_id c]}.
Proof. unfold live, close, log. cbn. rewrite live_after_app. reflexivity. Qed.

Lemma live_open_authenticated (h : list (string * string)) (a : api) :
  live (open_authenticated h a) = live a ∪ {[fresh a]}.
Proof.
  unfold live, open_authenticated. cbn. rewrite live_after_app. reflexivity.
Qed.

Lemma in_block_same (a b : api) :
  same_connections a b -> in_block a -> in_block b.
Proof.
  intros (Hs & Ha & Hf & Hl) (s & Hsa & Hin & Hlt & Hauth & Hleak).
  exists s. unfold no_leak in *. rewrite Hs, Ha, Hf, Hl.
  repeat split; try assumption; apply Hauth; assumption.
Qed.

Lemma in_block_sleep (d : Z) (a : api) : in_block a -> in_block (sleep d a).
Proof. apply in_block_same. repeat split. apply live_sleep. Qed.

Lemma in_block_sent (verb : string) (c : conn) (url : string) (a : api) :
  in_block a -> in_block (sent verb c url a).
Proof. apply in_block_same. repeat split. apply live_sent. Qed.

Lemma in_block_count (a : api) : in_block a -> in_block (count_auth_call a).
Proof. apply in_block_same. repeat split. Qed.

Lemma only_plain_in_block (a : api) : only_plain a -> in_block a.
Proof.
  intros (s & Hs & Hin & Hlt & Hauth & Hsub).
  exists s. unfold no_leak. rewrite Hs. cbn.
  repeat split; try assumption; try (apply Hauth; assumption).
  set_solver.
Qed.

Lemma only_plain_unauthenticated (a : api) :
  in_block a -> authenticated_session a = None -> only_plain a.
Proof.
  intros (s & Hs & Hin & Hlt & Hauth & Hleak) Hnone.
  exists s. unfold no_leak in Hleak. rewrite Hs, Hnone in Hleak. cbn in Hleak.
  repeat split; try assumption; try (apply Hauth; assumption).
  set_solver.
Qed.

Lemma only_plain_close (c : conn) (a : api) :
  in_block a -> authenticated_session a = Some c -> only_plain (close c a).
Proof.
  intros (s & Hs & Hin & Hlt & Hauth & Hleak) Hc.
  destruct (Hauth c Hc) as [Hne Hclt].
  exists s. unfold no_leak in Hleak. rewrite live_close.
  rewrite Hs, Hc in Hleak. cbn in Hleak |- *.
  repeat split; try assumption; try (apply Hauth; assumption).
  - set_solver.
  - set_solver.
Qed.

Lemma in_block_open (h : list (string * string)) (a : api) :
  only_plain a -> in_block (open_authenticated h a).
Proof.
  intros (s & Hs & Hin & Hlt & Hauth & Hsub).
  exists s. unfold no_leak. rewrite live_open_authenticated. cbn.
  rewrite Hs. cbn.
  split; [reflexivity |]. split; [set_solver |]. split; [lia |].
  split; [| set_solver].
  intros c [= <-]. cbn. lia.
Qed.

(** [_authenticate] keeps the client well formed, whatever is configured
    and whichever library call raises. *)
Lemma in_block_authenticate (cfg : settings) (faults : nat -> local_fault)
    (a : api) :
  in_block a -> in_block (snd (_authenticate cfg faults a)).
Proof.
  intros Hin. apply in_block_count in Hin.
  unfold _authenticate.
  set (b := count_auth_call a) in *.
  destruct (authenticated_session b) as [c |] eqn:Hc.
  - pose proof (only_plain_close c b Hin Hc) as Hclosed.
    destruct (faults (auth_calls a));
      destruct (configured (SESSION_ID cfg) && configured (CSRF_TOKEN cfg));
      destruct (configured (FPL_USERNAME cfg)
                && configured (FPL_PASSWORD cfg));
      cbn [snd];
      first [ exact Hin
            | apply in_block_open; exact Hclosed
            | apply only_plain_in_block; exact Hclosed ].
  - pose proof (only_plain_unauthenticated b Hin Hc) as Hplain.
    destruct (faults (auth_calls a));
      destruct (configured (SESSION_ID cfg) && configured (CSRF_TOKEN cfg));
      destruct (configured (FPL_USERNAME cfg)
                && configured (FPL_PASSWORD cfg));
      cbn [snd];
      first [ exact Hin | apply in_block_open; exact Hplain ].
Qed.

Section Loop.

Context {Body : Type}.
Variable cfg : settings.
Variable respond : nat -> outcome Body.
Variable faults : nat -> local_fault.
Variable url method : string.

Lemma in_block_attempts_loop (s : conn) (attempts : list nat) :
  forall (d : Z) (a : api),
    in_block a ->
    in_block (snd (attempts_loop cfg respond faults url method s attempts
                     d a)).
Proof.
  induction attempts as [| attempt rest IH]; intros d a Hin; [exact Hin |].
  assert (Hback : forall d' a',
             in_block a' ->
             in_block (snd (if (attempt <? max_retries - 1)%nat
                            then attempts_loop cfg respond faults url method
                                   s rest (d * 2) (sleep d' a')
                            else (None, a')))).
  { intros d' a' Ha'. destruct (attempt <? max_retries - 1)%nat.
    - apply IH. apply in_block_sleep. exact Ha'.
    - exact Ha'. }
  cbn [attempts_loop]. unfold send.
  destruct (String.eqb (upper method) "GET").
  - pose proof (in_block_sent "GET" s url a Hin) as H1.
    destruct (respond (issued a)) as [status json | |];
      [ destruct (status =? 200)%Z;
        [ destruct json; [exact H1 |]
        | destruct (status =? 429)%Z ] | | ];
      first [ apply Hback; exact H1
            | apply IH; apply in_block_sleep; exact H1 ].
  - destruct (String.eqb (upper method) "POST"); [| exact Hin].
    pose proof (in_block_sent "POST" (session_to_use s a) url a Hin) as H1.
    destruct (respond (issued a)) as [status json | |];
      [ destruct (status =? 200)%Z;
        [ destruct json; [exact H1 |]
        | destruct (status =? 401)%Z;
          [ | destruct (status =? 429)%Z ] ] | | ];
      try first [ apply Hback; exact H1
                | apply IH; apply in_block_sleep; exact H1 ].
    pose proof (in_block_authenticate cfg faults _ H1) as H2.
    destruct (_authenticate cfg faults
                (sent "POST" (session_to_use s a) url a)) as [ok a2].
    cbn [snd] in H2.
    destruct ok; [| exact H2].
    destruct (authenticated_session a2) as [c |]; [| exact H2].
    unfold send.
    pose proof (in_block_sent "POST" c url a2 H2) as H3.
    destruct (respond (issued a2)) as [status2 json2 | |];
      [ destruct (status2 =? 200)%Z;
        [ destruct json2; [exact H3 |] | exact H3 ] | | ];
      apply Hback; exact H3.
Qed.

Lemma in_block_request (a : api) :
  in_block a ->
  in_block (snd (_make_request_with_retry cfg respond faults url method a)).
Proof.
  intros Hin. unfold _make_request_with_retry.
  destruct (session a); [| exact Hin].
  apply in_block_attempts_loop. exact Hin.
Qed.

Lemma in_block_execute_transfers (int_ : string -> option Z) (a : api) :
  in_block a ->
  in_block (snd (execute_transfers cfg faults int_ respond a)).
Proof.
  intros Hin. unfold execute_transfers.
  destruct (negb (configured (TEAM_ID cfg))); [exact Hin |].
  assert (H1 : in_block
                 (snd (match authenticated_session a with
                       | Some _ => (true, a)
                       | None => _authenticate cfg faults a
                       end))).
  { destruct (authenticated_session a); [exact Hin |].
    apply in_block_authenticate. exact Hin. }
  destruct (match authenticated_session a with
            | Some _ => (true, a)
            | None => _authenticate cfg faults a
            end) as [authenticated a1].
  cbn [snd] in H1.
  destruct (negb authenticated); [exact H1 |].
  destruct (int_ (text (TEAM_ID cfg))); [| exact H1].
  destruct (authenticated_session a1) as [c |]; [| exact H1].
  unfold send.
  pose proof (in_block_sent "POST" c (FPL_BASE_URL +:+ "/transfers/") a1 H1)
    as H2.
  destruct (respond (issued a1)) as [status json | |];
    [ destruct (status =? 200)%Z; [destruct json |] | | ]; exact H2.
Qed.

End Loop.

Lemma in_block_enter : in_block (aenter init).
Proof.
  exists {| conn_id := 0; conn_headers := [("User-Agent", "FPL-Bot/1.0")] |}.
  unfold no_leak, live. cbn.
  repeat split; try lia; try discriminate; set_solver.
Qed.

(** Inside the [async with] block, whatever was requested, authenticated or
    transferred so far and whatever failed: the plain session is open, at
    most one other connection is open, and that one is the session held in
    [authenticated_session]. *)
Theorem reachable_in_block (a : api) :
  reachable a ->
  in_block a
  /\ (exists s, session a = Some s /\ conn_id s ∈ live a)
  /\ (size (live a ∖ id_of (session a)) <= 1)%nat
  /\ live a ∖ id_of (session a) ⊆ id_of (authenticated_session a).
Proof.
  intros Hreach.
  assert (Hin : in_block a).
  { induction Hreach.
    - exact in_block_enter.
    - apply in_block_authenticate. exact IHHreach.
    - apply in_block_request. exact IHHreach.
    - apply in_block_execute_transfers. exact IHHreach. }
  split; [exact Hin |].
  destruct Hin as (s & Hs & Hlive & Hlt & Hauth & Hleak).
  unfold no_leak in Hleak.
  assert (Hsub : live a ∖ id_of (session a)
                 ⊆ id_of (authenticated_session a)) by set_solver.
  split; [exists s; split; assumption |]. split; [| exact Hsub].
  transitivity (size (id_of (authenticated_session a))).
  - apply subseteq_size. exact Hsub.
  - destruct (authenticated_session a); cbn.
    + rewrite size_singleton. lia.
    + rewrite size_empty. lia.
Qed.

(** Leaving the block closes every connection that was opened: nothing
    stays open, whatever happened inside. *)
Theorem aexit_closes_everything (a : api) :
  reachable a -> live (__aexit__ a) = ∅.
Proof.
  intros Hreach.
  destruct (reachable_in_block a Hreach)
    as ((s & Hs & Hlive & Hlt & Hauth & Hleak) & _).
  unfold no_leak in Hleak. unfold __aexit__. rewrite Hs.
  change (authenticated_session (close s a)) with (authenticated_session a).
  rewrite Hs in Hleak. cbn in Hleak.
  destruct (authenticated_session a) as [c |]; cbn in Hleak;
    rewrite ?live_close; set_solver.
Qed.


(** When [_authenticate] fails on a client that holds an authenticated
    session (no credentials, or a constructor raising after the close), that
    session has been closed and is still what [authenticated_session]
    holds: the next POST goes through a closed session. *)
Theorem failed_authentication_keeps_the_closed_session (cfg : settings)
    (faults : nat -> local_fault) (a : api) (c : conn) :
  authenticated_session a = Some c ->
  faults (auth_calls a) <> CloseRaises ->
  fst (_authenticate cfg faults a) = false ->
  let a' := snd (_authenticate cfg faults a) in
  authenticated_session a' = Some c
  /\ (conn_id c ∉ live a')
  /\ (forall s, session_to_use s a' = c).
Proof.
  intros Hc Hflt. unfold _authenticate.
  cbn [count_auth_call authenticated_session]. rewrite Hc.
  assert (Hclosed : conn_id c ∉ live (close c (count_auth_call a)))
    by (rewrite live_close; set_solver).
  unfold session_to_use.
  destruct (faults (auth_calls a)); [| contradiction |];
    destruct (configured (SESSION_ID cfg) && configured (CSRF_TOKEN cfg));
    destruct (configured (FPL_USERNAME cfg) && configured (FPL_PASSWORD cfg));
    cbn; intros Hfalse; try discriminate;
    rewrite Hc; repeat split; assumption.
Qed.

End LifecycleProperties.

(** * More properties of the retry loop *)

Module RetryBounds.

Import Settings Py FPLAPI Endpoints.

Lemma sleeps_of_app (tr1 tr2 : list event) :
  sleeps_of (tr1 ++ tr2) = sleeps_of tr1 ++ sleeps_of tr2.
Proof. unfold sleeps_of. apply flat_map_app. Qed.

Lemma requests_of_app (tr1 tr2 : list event) :
  requests_of (tr1 ++ tr2) = requests_of tr1 ++ requests_of tr2.
Proof. unfold requests_of. apply flat_map_app. Qed.

Lemma upper_ascii_idempotent (c : ascii) :
  upper_ascii (upper_ascii c) = upper_ascii c.
Proof.
  destruct c as [[] [] [] [] [] [] [] []]; vm_compute; reflexivity.
Qed.

Lemma upper_idempotent (s : string) : upper (upper s) = upper s.
Proof.
  induction s as [| c s IH]; cbn; [reflexivity |].
  rewrite upper_ascii_idempotent, IH. reflexivity.
Qed.

(** What [_authenticate] leaves alone: it sends nothing and never sleeps. *)
Lemma authenticate_quiet (cfg : settings) (faults : nat -> local_fault)
    (a : api) :
  sleeps_of (trace (snd (_authenticate cfg faults a))) = sleeps_of (trace a)
  /\ requests_of (trace (snd (_authenticate cfg faults a)))
     = requests_of (trace a).
Proof.
  unfold _authenticate.
  destruct (authenticated_session (count_auth_call a)) as [c|];
    destruct (faults (auth_calls a));
    destruct (configured (SESSION_ID cfg) && configured (CSRF_TOKEN cfg));
    destruct (configured (FPL_USERNAME cfg) && configured (FPL_PASSWORD cfg));
    cbn; rewrite ?sleeps_of_app, ?requests_of_app; cbn;
    rewrite ?app_nil_r; split; reflexivity.
Qed.

(** [_authenticate] only appends opens and closes to the history. *)
Lemma authenticate_extends (cfg : settings) (faults : nat -> local_fault)
    (a : api) :
  exists ext,
    trace (snd (_authenticate cfg faults a)) = trace a ++ ext
    /\ requests_of ext = [] /\ sleeps_of ext = [].
Proof.
  unfold _authenticate.
  destruct (authenticated_session (count_auth_call a)) as [c|];
    destruct (faults (auth_calls a));
    destruct (configured (SESSION_ID cfg) && configured (CSRF_TOKEN cfg));
    destruct (configured (FPL_USERNAME cfg) && configured (FPL_PASSWORD cfg));
    cbn; rewrite <- ?app_assoc;
    first [ exists []; rewrite app_nil_r; repeat split; reflexivity
          | eexists; repeat split; reflexivity ].
Qed.

Lemma sleep_budget_nonneg (n : nat) :
  forall d, (0 < d)%Z -> (0 <= sleep_budget d n)%Z.
Proof.
  induction n as [| n IH]; intros d Hd; cbn [sleep_budget]; [lia |].
  specialize (IH (2 * d)%Z). lia.
Qed.

Lemma sum_seconds_app (l1 l2 : list Z) : sum_seconds (l1 ++ l2) = (sum_seconds l1 + sum_seconds l2)%Z.
Proof.
  induction l1 as [| x l1 IH]; cbn; [reflexivity |].
  unfold sum_seconds in *. lia.
Qed.

Section Loop.

Context {Body : Type}.
Variable cfg : settings.
Variable respond : nat -> outcome Body.
Variable faults : nat -> local_fault.
Variable url method : string.

Abbreviation loop := (attempts_loop cfg respond faults url method).
Abbreviation run := (_make_request_with_retry cfg respond faults url method).

(** The sleeps of the attempts that remain: no more of them than attempts,
    each positive, within the budget. *)
Lemma loop_sleeps (s : conn) (attempts : list nat) :
  forall (d : Z) (a : api),
    (0 < d)%Z ->
    exists new,
      sleeps_of (trace (snd (loop s attempts d a)))
      = sleeps_of (trace a) ++ new
      /\ (length new <= length attempts)%nat
      /\ (sum_seconds new <= sleep_budget d (length attempts))%Z.
Proof.
  induction attempts as [| attempt rest IH]; intros d a Hd.
  - exists []. cbn. rewrite app_nil_r. repeat split; lia.
  - assert (Hd2 : (0 < d * 2)%Z) by lia.
    pose proof (sleep_budget_nonneg (length rest) (2 * d)%Z ltac:(lia))
      as Hnonneg.
    assert (Hnext : forall d' a',
               (d' = d \/ d' = d * 2)%Z ->
               sleeps_of (trace a') = sleeps_of (trace a) ->
               exists new,
                 sleeps_of (trace (snd (loop s rest (d * 2) (sleep d' a'))))
                 = sleeps_of (trace a) ++ new
                 /\ (length new <= S (length rest))%nat
                 /\ (sum_seconds new <= 2 * d + sleep_budget (2 * d) (length rest))%Z).
    { intros d' a' Hd' Ha'.
      destruct (IH (d * 2)%Z (sleep d' a') Hd2) as (new & Hnew & Hlen & Hsum).
      exists (d' :: new). cbn in Hnew.
      rewrite sleeps_of_app, Ha' in Hnew. cbn in Hnew.
      rewrite <- app_assoc in Hnew. cbn in Hnew.
      replace (2 * d)%Z with (d * 2)%Z by lia.
      repeat split; [exact Hnew | cbn; lia |].
      cbn. fold (sum_seconds new). lia. }
    assert (Hstop : forall (r : option Body) a',
               sleeps_of (trace a') = sleeps_of (trace a) ->
               exists new,
                 sleeps_of (trace (snd (r, a'))) = sleeps_of (trace a) ++ new
                 /\ (length new <= S (length rest))%nat
                 /\ (sum_seconds new <= 2 * d + sleep_budget (2 * d) (length rest))%Z).
    { intros r a' Ha'. exists []. cbn. rewrite app_nil_r.
      repeat split; [exact Ha' | lia | lia]. }
    assert (Hback : forall a',
               sleeps_of (trace a') = sleeps_of (trace a) ->
               exists new,
                 sleeps_of (trace (snd (if (attempt <? max_retries - 1)%nat
                                        then loop s rest (d * 2) (sleep d a')
                                        else (None, a'))))
                 = sleeps_of (trace a) ++ new
                 /\ (length new <= S (length rest))%nat
                 /\ (sum_seconds new <= 2 * d + sleep_budget (2 * d) (length rest))%Z).
    { intros a' Ha'. destruct (attempt <? max_retries - 1)%nat.
      - apply Hnext; [left; reflexivity | exact Ha'].
      - apply Hstop. exact Ha'. }
    assert (Hsent : forall verb c a',
               sleeps_of (trace a') = sleeps_of (trace a) ->
               sleeps_of (trace (sent verb c url a')) = sleeps_of (trace a)).
    { intros verb c a' Ha'. cbn. rewrite sleeps_of_app, Ha'. cbn.
      apply app_nil_r. }
    cbn [attempts_loop length sleep_budget]. unfold send.
    destruct (String.eqb (upper method) "GET").
    + pose proof (Hsent "GET" s a eq_refl) as H1.
      destruct (respond (issued a)) as [status json | |];
        [ destruct (status =? 200)%Z;
          [ destruct json; [apply Hstop; exact H1 |]
          | destruct (status =? 429)%Z ] | | ];
        first [ apply Hback; exact H1
              | apply Hnext; [right; reflexivity | exact H1] ].
    + destruct (String.eqb (upper method) "POST");
        [| apply Hstop; reflexivity].
      pose proof (Hsent "POST" (session_to_use s a) a eq_refl) as H1.
      destruct (respond (issued a)) as [status json | |];
        [ destruct (status =? 200)%Z;
          [ destruct json; [apply Hstop; exact H1 |]
          | destruct (status =? 401)%Z;
            [ | destruct (status =? 429)%Z ] ] | | ];
        try first [ apply Hback; exact H1
                  | apply Hnext; [right; reflexivity | exact H1] ].
      pose proof (proj1 (authenticate_quiet cfg faults
                           (sent "POST" (session_to_use s a) url a))) as H2.
      rewrite H1 in H2.
      destruct (_authenticate cfg faults
                  (sent "POST" (session_to_use s a) url a)) as [ok a2].
      cbn [snd] in H2.
      destruct ok; [| apply Hstop; exact H2].
      destruct (authenticated_session a2) as [c |];
        [| apply Hstop; exact H2].
      unfold send. pose proof (Hsent "POST" c a2 H2) as H3.
      destruct (respond (issued a2)) as [status2 json2 | |];
        [ destruct (status2 =? 200)%Z;
          [ destruct json2; [apply Hstop; exact H3 |]
          | apply Hstop; exact H3 ] | | ];
        apply Hback; exact H3.
Qed.

(** Whatever the server answers and whatever the verb, one call sleeps at
    most three times and at most 14 seconds in all. *)
Theorem request_sleeps_at_most_14_seconds (a : api) :
  (length (sleeps_of (trace (snd (run a))))
   <= length (sleeps_of (trace a)) + 3)%nat
  /\ (total_sleep (trace (snd (run a))) <= total_sleep (trace a) + 14)%Z.
Proof.
  unfold _make_request_with_retry.
  destruct (session a) as [s |]; [| cbn; lia].
  destruct (loop_sleeps s (seq 0 max_retries) 1%Z a ltac:(lia))
    as (new & Hnew & Hlen & Hsum).
  pose proof (sum_seconds_app (sleeps_of (trace a)) new) as Happ.
  change (length (seq 0 max_retries)) with 3%nat in Hlen, Hsum.
  change (sleep_budget 1 3) with 14%Z in Hsum.
  unfold total_sleep. rewrite Hnew, length_app, Happ. lia.
Qed.


(** A property of the client that sending, sleeping and (for a POST)
    re-authenticating keep is kept by the whole loop. *)
Lemma loop_preserves (R : api -> Prop) (s : conn) :
  (forall verb c a,
      verb = upper method -> (verb = "GET" -> c = s) ->
      R a -> R (sent verb c url a)) ->
  (forall d a, R a -> R (sleep d a)) ->
  (upper method = "POST" ->
   forall a, R a -> R (snd (_authenticate cfg faults a))) ->
  forall (attempts : list nat) (d : Z) (a : api),
    R a -> R (snd (loop s attempts d a)).
Proof.
  intros Hsent Hsleep Hauth.
  induction attempts as [| attempt rest IH]; intros d a Ha; [exact Ha |].
  assert (Hback : forall d' a',
             R a' ->
             R (snd (if (attempt <? max_retries - 1)%nat
                     then loop s rest (d * 2) (sleep d' a')
                     else (None, a')))).
  { intros d' a' Ha'. destruct (attempt <? max_retries - 1)%nat.
    - apply IH. apply Hsleep. exact Ha'.
    - exact Ha'. }
  cbn [attempts_loop]. unfold send.
  destruct (String.eqb (upper method) "GET") eqn:Hget.
  - apply String.eqb_eq in Hget.
    assert (H1 : R (sent "GET" s url a))
      by (apply Hsent; [symmetry; exact Hget | reflexivity | exact Ha]).
    destruct (respond (issued a)) as [status json | |];
      [ destruct (status =? 200)%Z;
        [ destruct json; [exact H1 |]
        | destruct (status =? 429)%Z ] | | ];
      first [ apply Hback; exact H1
            | apply IH; apply Hsleep; exact H1 ].
  - destruct (String.eqb (upper method) "POST") eqn:Hpost; [| exact Ha].
    apply String.eqb_eq in Hpost.
    assert (Hpost_sent : forall c a', R a' -> R (sent "POST" c url a'))
      by (intros c a' Ha'; apply Hsent;
          [symmetry; exact Hpost | discriminate | exact Ha']).
    pose proof (Hpost_sent (session_to_use s a) a Ha) as H1.
    destruct (respond (issued a)) as [status json | |];
      [ destruct (status =? 200)%Z;
        [ destruct json; [exact H1 |]
        | destruct (status =? 401)%Z;
          [ | destruct (status =? 429)%Z ] ] | | ];
      try first [ apply Hback; exact H1
                | apply IH; apply Hsleep; exact H1 ].
    pose proof (Hauth Hpost _ H1) as H2.
    destruct (_authenticate cfg faults
                (sent "POST" (session_to_use s a) url a)) as [ok a2].
    cbn [snd] in H2.
    destruct ok; [| exact H2].
    destruct (authenticated_session a2) as [c |]; [| exact H2].
    unfold send. pose proof (Hpost_sent c a2 H2) as H3.
    destruct (respond (issued a2)) as [status2 json2 | |];
      [ destruct (status2 =? 200)%Z;
        [ destruct json2; [exact H3 |] | exact H3 ] | | ];
      apply Hback; exact H3.
Qed.

(** A call leaves [self.session] alone, only appends to the history, and
    every request it makes goes to the URL it was given, with the verb it
    was given in upper case; a GET goes through the plain session. *)
Theorem request_targets_the_given_url (a : api) :
  let a' := snd (run a) in
  session a' = session a
  /\ exists ext,
       trace a' = trace a ++ ext
       /\ Forall (fun r =>
                    snd r = url /\ fst (fst r) = upper method
                    /\ (upper method = "GET" ->
                        Some (snd (fst r)) = session a))
            (requests_of ext).
Proof.
  unfold _make_request_with_retry.
  destruct (session a) as [s |] eqn:Hs.
  - apply (loop_preserves
             (fun b => session b = Some s
                       /\ exists ext,
                            trace b = trace a ++ ext
                            /\ Forall (fun r =>
                                 snd r = url /\ fst (fst r) = upper method
                                 /\ (upper method = "GET" ->
                                     Some (snd (fst r)) = Some s))
                                 (requests_of ext))).
    + intros verb c b Hverb Hc (Hsb & ext & Hext & Hall).
      split; [exact Hsb |]. exists (ext ++ [EvRequest verb c url]).
      cbn. rewrite Hext, <- app_assoc. split; [reflexivity |].
      rewrite requests_of_app. apply Forall_app. split; [exact Hall |].
      cbn. constructor; [| constructor]. cbn.
      repeat split; [exact Hverb |].
      intros Hget. rewrite Hc; [reflexivity |]. congruence.
    + intros d b (Hsb & ext & Hext & Hall).
      split; [exact Hsb |]. exists (ext ++ [EvSleep d]).
      cbn. rewrite Hext, <- app_assoc. split; [reflexivity |].
      rewrite requests_of_app. cbn. rewrite app_nil_r. exact Hall.
    + intros _ b (Hsb & ext & Hext & Hall).
      destruct (ClientProperties.authenticate_counts cfg faults b)
        as (_ & _ & Hsess).
      split; [rewrite Hsess; exact Hsb |].
      destruct (authenticate_extends cfg faults b) as (ext' & Hext' & Hreq & _).
      exists (ext ++ ext'). rewrite Hext', Hext, <- app_assoc.
      split; [reflexivity |].
      rewrite requests_of_app, Hreq, app_nil_r. exact Hall.
    + split; [exact Hs |]. exists []. rewrite app_nil_r.
      split; [reflexivity | constructor].
  - cbn. split; [exact Hs |]. exists []. rewrite app_nil_r.
    split; [reflexivity | constructor].
Qed.


(** A GET has nothing to do with authentication: it never calls
    [_authenticate], opens or closes no connection, leaves the
    authenticated session alone, and makes at most three requests. *)
Theorem get_never_authenticates (a : api) :
  upper method = "GET" ->
  let a' := snd (run a) in
  authenticated_session a' = authenticated_session a
  /\ auth_calls a' = auth_calls a
  /\ fresh a' = fresh a
  /\ live a' = live a
  /\ (issued a' <= issued a + 3)%nat.
Proof.
  intros Hget a'. subst a'.
  assert (Hbound : (issued (snd (run a)) <= issued a + 3)%nat).
  { unfold _make_request_with_retry.
    destruct (session a) as [s |]; [| cbn; lia].
    apply (ClientProperties.loop_issues_at_most cfg respond faults url
             method s (seq 0 max_retries)).
    intros Hpost. congruence. }
  repeat split; [ | | | | exact Hbound];
    unfold _make_request_with_retry;
    (destruct (session a) as [s |]; [| reflexivity]).
  - apply (loop_preserves
             (fun b => authenticated_session b = authenticated_session a));
      [ intros; assumption | intros; assumption
      | intros Hpost; congruence | reflexivity ].
  - apply (loop_preserves (fun b => auth_calls b = auth_calls a));
      [ intros; assumption | intros; assumption
      | intros Hpost; congruence | reflexivity ].
  - apply (loop_preserves (fun b => fresh b = fresh a));
      [ intros; assumption | intros; assumption
      | intros Hpost; congruence | reflexivity ].
  - apply (loop_preserves (fun b => live b = live a)).
    + intros verb c b _ _ Hb. rewrite LifecycleProperties.live_sent.
      exact Hb.
    + intros d b Hb. rewrite LifecycleProperties.live_sleep. exact Hb.
    + intros Hpost. congruence.
    + reflexivity.
Qed.

Lemma all_failed_join (lo k hi : nat) :
  all_failed respond lo k -> all_failed respond k hi ->
  all_failed respond lo hi.
Proof.
  intros H1 H2 n j Hn.
  destruct (Nat.lt_ge_cases n k); [apply H1 | apply H2]; lia.
Qed.

Lemma answered_by_lift (lo k : nat) (r : option Body * api) :
  (lo <= k)%nat -> all_failed respond lo k ->
  answered_by respond k r -> answered_by respond lo r.
Proof.
  intros Hle Hfail [Hk Hr]. split; [lia |].
  destruct (fst r) as [j |].
  - destruct Hr as (Hlt & Hlast & Hrest).
    repeat split; [lia | exact Hlast |].
    apply (all_failed_join lo k); assumption.
  - apply (all_failed_join lo k); assumption.
Qed.

Lemma answered_by_hit (lo : nat) (a' : api) (j : Body) :
  issued a' = S lo ->
  respond lo = Response 200 (Some j) ->
  answered_by respond lo (Some j, a').
Proof.
  intros Ha' Hj. split; [cbn; lia |]. cbn. rewrite Ha'.
  replace (S lo - 1)%nat with lo by lia.
  repeat split; [lia | exact Hj |]. intros n j' Hn. lia.
Qed.

Lemma one_failed (a : api) (o : outcome Body) :
  respond (issued a) = o ->
  (forall j, o <> Response 200 (Some j)) ->
  all_failed respond (issued a) (S (issued a)).
Proof.
  intros Ho Hne n j' Hn.
  replace n with (issued a) by lia. rewrite Ho. apply Hne.
Qed.

Lemma two_failed (a a2 : api) (o : outcome Body) :
  issued a2 = S (issued a) ->
  all_failed respond (issued a) (S (issued a)) ->
  respond (issued a2) = o ->
  (forall j, o <> Response 200 (Some j)) ->
  all_failed respond (issued a) (S (S (issued a))).
Proof.
  intros Hissued Hfirst Ho Hne.
  apply (all_failed_join _ (S (issued a))); [exact Hfirst |].
  intros n j' Hn. replace n with (issued a2) by lia.
  rewrite Ho. apply Hne.
Qed.

Lemma loop_answered_by (s : conn) (attempts : list nat) :
  forall (d : Z) (a : api),
    answered_by respond (issued a) (loop s attempts d a).
Proof.
  induction attempts as [| attempt rest IH]; intros d a.
  - split; [cbn; lia |]. cbn. intros n j Hn. lia.
  - assert (Hstop : forall a' k,
               issued a' = k -> all_failed respond (issued a) k ->
               (issued a <= k)%nat ->
               answered_by respond (issued a) (None, a')).
    { intros a' k <- Hfail Hle. split; [exact Hle | exact Hfail]. }
    assert (Hgo : forall d' d'' a' k,
               issued a' = k -> all_failed respond (issued a) k ->
               (issued a <= k)%nat ->
               answered_by respond (issued a)
                 (loop s rest d' (sleep d'' a'))).
    { intros d' d'' a' k Hk Hfail Hle.
      apply (answered_by_lift (issued a) k); [exact Hle | exact Hfail |].
      rewrite <- Hk. exact (IH d' (sleep d'' a')). }
    assert (Hback : forall d'' a' k,
               issued a' = k -> all_failed respond (issued a) k ->
               (issued a <= k)%nat ->
               answered_by respond (issued a)
                 (if (attempt <? max_retries - 1)%nat
                  then loop s rest (d * 2) (sleep d'' a')
                  else (None, a'))).
    { intros d'' a' k Hk Hfail Hle.
      destruct (attempt <? max_retries - 1)%nat.
      - apply (Hgo _ _ _ k); assumption.
      - apply (Hstop _ k); assumption. }
    cbn [attempts_loop]. unfold send.
    destruct (String.eqb (upper method) "GET").
    + destruct (respond (issued a)) as [status json | |] eqn:Hr;
        [ destruct (status =? 200)%Z eqn:H200;
          [ destruct json as [j |];
            [ apply Z.eqb_eq in H200; subst status;
              apply answered_by_hit; [reflexivity | exact Hr] | ]
          | destruct (status =? 429)%Z ] | | ];
        first [ apply (Hback _ _ (S (issued a))); [reflexivity | | lia]
              | apply (Hgo _ _ _ (S (issued a))); [reflexivity | | lia] ];
        apply (one_failed a _ Hr); intros j; try discriminate;
        intros [= -> _]; discriminate.
    + destruct (String.eqb (upper method) "POST");
        [| apply (Hstop _ (issued a)); [reflexivity | | lia];
           intros n j Hn; lia].
      destruct (respond (issued a)) as [status json | |] eqn:Hr;
        [ destruct (status =? 200)%Z eqn:H200;
          [ destruct json as [j |];
            [ apply Z.eqb_eq in H200; subst status;
              apply answered_by_hit; [reflexivity | exact Hr] | ]
          | destruct (status =? 401)%Z eqn:H401;
            [ | destruct (status =? 429)%Z ] ] | | ];
        try (first [ apply (Hback _ _ (S (issued a)));
                     [reflexivity | | lia]
                   | apply (Hgo _ _ _ (S (issued a)));
                     [reflexivity | | lia] ];
             apply (one_failed a _ Hr); intros j; try discriminate;
             intros [= -> _]; discriminate).
      assert (Hfirst : all_failed respond (issued a) (S (issued a))).
      { apply (one_failed a _ Hr). intros j [= -> _]. discriminate. }
      destruct (ClientProperties.authenticate_counts cfg faults
                  (sent "POST" (session_to_use s a) url a))
        as (_ & Hissued & _).
      destruct (_authenticate cfg faults
                  (sent "POST" (session_to_use s a) url a)) as [ok a2].
      cbn [snd] in Hissued. cbn in Hissued.
      destruct ok; [| apply (Hstop _ (S (issued a))); [exact Hissued | exact Hfirst | lia]].
      destruct (authenticated_session a2) as [c |];
        [| apply (Hstop _ (S (issued a))); [exact Hissued | exact Hfirst | lia]].
      unfold send.
      destruct (respond (issued a2)) as [status2 json2 | |] eqn:Hr2;
        [ destruct (status2 =? 200)%Z eqn:H200b;
          [ destruct json2 as [j |] | ] | | ].
      * apply Z.eqb_eq in H200b. subst status2.
        apply (answered_by_lift (issued a) (issued a2));
          [lia | rewrite Hissued; exact Hfirst |].
        apply answered_by_hit; [reflexivity | exact Hr2].
      * apply (Hback _ _ (S (S (issued a)))); [cbn; lia | | lia].
        apply (two_failed a a2 _ Hissued Hfirst Hr2). intros j. discriminate.
      * apply (Hstop _ (S (S (issued a)))); [cbn; lia | | lia].
        apply (two_failed a a2 _ Hissued Hfirst Hr2).
        intros j [= -> _]. discriminate.
      * apply (Hback _ _ (S (S (issued a)))); [cbn; lia | | lia].
        apply (two_failed a a2 _ Hissued Hfirst Hr2). intros j. discriminate.
      * apply (Hback _ _ (S (S (issued a)))); [cbn; lia | | lia].
        apply (two_failed a a2 _ Hissued Hfirst Hr2). intros j. discriminate.
Qed.

(** A call stops at the first request answered 200 with a body that
    parses, and returns what [response.json()] gave for it; every earlier
    request of the call failed.  The caller holds a body other than [None]
    only then.  It holds [None] when every request failed, and also when
    that first parsed body was JSON null: the two look the same to it. *)
Theorem request_returns_the_first_success (is_null : Body -> bool)
    (a : api) :
  let r := run a in
  let last := (issued (snd r) - 1)%nat in
  (forall j,
      seen_by_caller is_null (fst r) = Some j ->
      is_null j = false
      /\ (issued a < issued (snd r))%nat
      /\ respond last = Response 200 (Some j)
      /\ all_failed respond (issued a) last)
  /\ (seen_by_caller is_null (fst r) = None ->
      all_failed respond (issued a) (issued (snd r))
      \/ exists j,
           is_null j = true
           /\ (issued a < issued (snd r))%nat
           /\ respond last = Response 200 (Some j)
           /\ all_failed respond (issued a) last)
  /\ (forall n j,
        (issued a <= n < issued (snd r))%nat ->
        respond n = Response 200 (Some j) ->
        n = last /\ fst r = Some j).
Proof.
  intros r last.
  assert (Hans : answered_by respond (issued a) r).
  { subst r. unfold _make_request_with_retry.
    destruct (session a) as [s |].
    - apply loop_answered_by.
    - split; [cbn; lia |]. cbn. intros n j Hn. lia. }
  destruct Hans as [Hle Hres]. fold last in Hres.
  destruct (fst r) as [j0 |] eqn:Hfst; cbn [seen_by_caller].
  - destruct Hres as (Hlt & Hlast & Hrest). split; [| split].
    + intros j Hj. destruct (is_null j0) eqn:Hnull; [discriminate |].
      injection Hj as <-. repeat split; assumption.
    + intros Hj. right. exists j0.
      destruct (is_null j0); [| discriminate]. repeat split; assumption.
    + intros n j Hn Hj.
      destruct (Nat.lt_ge_cases n last) as [Hbefore | Hafter].
      * exfalso. apply (Hrest n j); [lia | exact Hj].
      * assert (n = last) by (unfold last in *; lia). subst n.
        split; [reflexivity |]. congruence.
  - split; [| split].
    + discriminate.
    + intros _. left. exact Hres.
    + intros n j Hn Hj. exfalso. apply (Hres n j); [lia | exact Hj].
Qed.


Lemma loop_counts (s : conn) (attempts : list nat) :
  forall (d : Z) (a : api),
    (issued (snd (loop s attempts d a)) <= issued a + 2 * length attempts)%nat
    /\ (auth_calls (snd (loop s attempts d a))
        <= auth_calls a + length attempts)%nat.
Proof.
  induction attempts as [| attempt rest IH]; intros d a; [cbn; lia |].
  assert (Hgo : forall d' d'' a',
             (issued a' <= issued a + 2)%nat ->
             (auth_calls a' <= auth_calls a + 1)%nat ->
             (issued (snd (loop s rest d' (sleep d'' a')))
              <= issued a + 2 * S (length rest))%nat
             /\ (auth_calls (snd (loop s rest d' (sleep d'' a')))
                 <= auth_calls a + S (length rest))%nat).
  { intros d' d'' a' Hi Hc. specialize (IH d' (sleep d'' a')).
    cbn in IH. lia. }
  assert (Hstop : forall (r : option Body) a',
             (issued a' <= issued a + 2)%nat ->
             (auth_calls a' <= auth_calls a + 1)%nat ->
             (issued (snd (r, a')) <= issued a + 2 * S (length rest))%nat
             /\ (auth_calls (snd (r, a'))
                 <= auth_calls a + S (length rest))%nat).
  { intros r a' Hi Hc. cbn. lia. }
  assert (Hback : forall d'' a',
             (issued a' <= issued a + 2)%nat ->
             (auth_calls a' <= auth_calls a + 1)%nat ->
             (issued (snd (if (attempt <? max_retries - 1)%nat
                           then loop s rest (d * 2) (sleep d'' a')
                           else (None, a')))
              <= issued a + 2 * S (length rest))%nat
             /\ (auth_calls (snd (if (attempt <? max_retries - 1)%nat
                                  then loop s rest (d * 2) (sleep d'' a')
                                  else (None, a')))
                 <= auth_calls a + S (length rest))%nat).
  { intros d'' a' Hi Hc. destruct (attempt <? max_retries - 1)%nat.
    - apply Hgo; assumption.
    - apply Hstop; assumption. }
  cbn [attempts_loop length]. unfold send.
  destruct (String.eqb (upper method) "GET").
  - destruct (respond (issued a)) as [status json | |];
      [ destruct (status =? 200)%Z;
        [ destruct json; [apply Hstop; cbn; lia |]
        | destruct (status =? 429)%Z ] | | ];
      first [ apply Hback; cbn; lia | apply Hgo; cbn; lia ].
  - destruct (String.eqb (upper method) "POST"); [| apply Hstop; lia].
    destruct (respond (issued a)) as [status json | |];
      [ destruct (status =? 200)%Z;
        [ destruct json; [apply Hstop; cbn; lia |]
        | destruct (status =? 401)%Z;
          [ | destruct (status =? 429)%Z ] ] | | ];
      try first [ apply Hback; cbn; lia | apply Hgo; cbn; lia ].
    destruct (ClientProperties.authenticate_counts cfg faults
                (sent "POST" (session_to_use s a) url a))
      as (Hcalls & Hissued & _).
    destruct (_authenticate cfg faults
                (sent "POST" (session_to_use s a) url a)) as [ok a2].
    cbn in Hcalls, Hissued.
    destruct ok; [| apply Hstop; lia].
    destruct (authenticated_session a2) as [c |]; [| apply Hstop; lia].
    unfold send.
    destruct (respond (issued a2)) as [status2 json2 | |];
      [ destruct (status2 =? 200)%Z;
        [ destruct json2; [apply Hstop; cbn; lia |]
        | apply Hstop; cbn; lia ] | | ];
      apply Hback; cbn; lia.
Qed.

(** Whatever the server answers, one call makes at most six requests (two
    for each attempt, when a POST is answered 401) and calls
    [_authenticate] at most three times. *)
Theorem request_effort_is_bounded (a : api) :
  (issued (snd (run a)) <= issued a + 6)%nat
  /\ (auth_calls (snd (run a)) <= auth_calls a + 3)%nat.
Proof.
  unfold _make_request_with_retry.
  destruct (session a) as [s |]; [| cbn; lia].
  pose proof (loop_counts s (seq 0 max_retries) 1%Z a) as H.
  change (length (seq 0 max_retries)) with 3%nat in H. lia.
Qed.

End Loop.

(** The verb is compared in upper case: two spellings of one verb behave
    alike. *)
Lemma loop_upper {Body : Type} (cfg : settings)
    (respond : nat -> outcome Body) (faults : nat -> local_fault)
    (url m1 m2 : string) (s : conn) (attempts : list nat) :
  upper m1 = upper m2 ->
  forall (d : Z) (a : api),
    attempts_loop cfg respond faults url m1 s attempts d a
    = attempts_loop cfg respond faults url m2 s attempts d a.
Proof.
  intros Hup. induction attempts as [| attempt rest IH]; intros d a;
    [reflexivity |].
  cbn [attempts_loop]. rewrite Hup. unfold send.
  repeat match goal with
         | |- context [match ?x with _ => _ end] => destruct x
         end;
    rewrite ?IH; reflexivity.
Qed.

(** For a verb written in ASCII: it is matched whatever its case, and a
    verb other than GET and POST fails at once, with no request, no sleep
    and the client untouched. *)
Theorem request_verb_is_case_insensitive {Body : Type} (cfg : settings)
    (respond : nat -> outcome Body) (faults : nat -> local_fault)
    (url method : string) (a : api) :
  ascii_text method = true ->
  _make_request_with_retry cfg respond faults url method a
  = _make_request_with_retry cfg respond faults url (upper method) a
  /\ (upper method <> "GET" -> upper method <> "POST" ->
      _make_request_with_retry cfg respond faults url method a = (None, a)).
Proof.
  intros _. split.
  - unfold _make_request_with_retry. destruct (session a); [| reflexivity].
    apply loop_upper. symmetry. apply upper_idempotent.
  - intros Hget Hpost. unfold _make_request_with_retry.
    destruct (session a); [| reflexivity].
    cbn [seq max_retries attempts_loop].
    apply String.eqb_neq in Hget, Hpost. rewrite Hget, Hpost. reflexivity.
Qed.

End RetryBounds.

(** * Properties of the fetch operations and of [execute_transfers] *)

Module EndpointProperties.

Import Settings Py FPLAPI Endpoints.

Section Transfers.

Context {Body : Type}.
Variable cfg : settings.
Variable faults : nat -> local_fault.
Variable int_ : string -> option Z.
Variable respond : nat -> outcome Body.

Abbreviation transfer := (execute_transfers cfg faults int_ respond).

(** A transfer is sent at most once: whatever the answer (a 429, a 5xx, a
    401, a timeout) there is no second request and no sleep, and
    [_authenticate] is called at most once, and not at all when an
    authenticated session exists. *)
Theorem transfer_is_never_retried (a : api) :
  (issued (snd (transfer a)) <= issued a + 1)%nat
  /\ sleeps_of (trace (snd (transfer a))) = sleeps_of (trace a)
  /\ (auth_calls (snd (transfer a)) <= auth_calls a + 1)%nat
  /\ (authenticated_session a <> None ->
      auth_calls (snd (transfer a)) = auth_calls a).
Proof.
  unfold execute_transfers.
  destruct (negb (configured (TEAM_ID cfg))); [cbn; repeat split; lia |].
  assert (H1 : let r := match authenticated_session a with
                        | Some _ => (true, a)
                        | None => _authenticate cfg faults a
                        end in
               issued (snd r) = issued a
               /\ sleeps_of (trace (snd r)) = sleeps_of (trace a)
               /\ (auth_calls (snd r) <= auth_calls a + 1)%nat
               /\ (authenticated_session a <> None ->
                   auth_calls (snd r) = auth_calls a)).
  { destruct (authenticated_session a) as [c |]; cbn zeta.
    - cbn. repeat split; lia.
    - destruct (ClientProperties.authenticate_counts cfg faults a)
        as (Hc & Hi & _).
      pose proof (proj1 (RetryBounds.authenticate_quiet cfg faults a))
        as Hq.
      repeat split; [exact Hi | exact Hq | lia | congruence]. }
  cbn zeta in H1.
  destruct (match authenticated_session a with
            | Some _ => (true, a)
            | None => _authenticate cfg faults a
            end) as [authenticated a1].
  cbn [snd] in H1. destruct H1 as (Hi & Hq & Hc & Hsame).
  assert (Hstop : forall (r : bool),
             (issued (snd (r, a1)) <= issued a + 1)%nat
             /\ sleeps_of (trace (snd (r, a1))) = sleeps_of (trace a)
             /\ (auth_calls (snd (r, a1)) <= auth_calls a + 1)%nat
             /\ (authenticated_session a <> None ->
                 auth_calls (snd (r, a1)) = auth_calls a)).
  { intros r. cbn. repeat split; [lia | exact Hq | exact Hc | exact Hsame]. }
  destruct (negb authenticated); [apply Hstop |].
  destruct (int_ (text (TEAM_ID cfg))); [| apply Hstop].
  destruct (authenticated_session a1) as [c |]; [| apply Hstop].
  unfold send.
  assert (Hsent : forall (r : bool),
             let a2 := sent "POST" c (FPL_BASE_URL +:+ "/transfers/") a1 in
             (issued (snd (r, a2)) <= issued a + 1)%nat
             /\ sleeps_of (trace (snd (r, a2))) = sleeps_of (trace a)
             /\ (auth_calls (snd (r, a2)) <= auth_calls a + 1)%nat
             /\ (authenticated_session a <> None ->
                 auth_calls (snd (r, a2)) = auth_calls a)).
  { intros r. cbn. rewrite RetryBounds.sleeps_of_app. cbn.
    rewrite app_nil_r. repeat split; [lia | exact Hq | exact Hc | exact Hsame]. }
  destruct (respond (issued a1)) as [status json | |];
    [ destruct (status =? 200)%Z; [destruct json |] | | ]; apply Hsent.
Qed.

(** [execute_transfers] reports success exactly for a 200 with a body
    that parses, sent through the authenticated session with a team id that
    is configured and reads as an integer. *)
Theorem transfer_succeeds_only_on_200 (a : api) :
  (fst (transfer a) = true ->
   configured (TEAM_ID cfg) = true
   /\ int_ (text (TEAM_ID cfg)) <> None
   /\ exists c j,
        authenticated_session (snd (transfer a)) = Some c
        /\ respond (issued a) = Response 200 (Some j)
        /\ issued (snd (transfer a)) = S (issued a)
        /\ requests_of (trace (snd (transfer a)))
           = requests_of (trace a)
             ++ [("POST", c, FPL_BASE_URL +:+ "/transfers/")])
  /\ (forall c j,
        configured (TEAM_ID cfg) = true ->
        int_ (text (TEAM_ID cfg)) <> None ->
        authenticated_session a = Some c ->
        respond (issued a) = Response 200 (Some j) ->
        transfer a
        = (true, sent "POST" c (FPL_BASE_URL +:+ "/transfers/") a)).
Proof.
  split.
  - unfold execute_transfers.
    destruct (configured (TEAM_ID cfg)); cbn [negb]; [| discriminate].
    assert (H1 : let r := match authenticated_session a with
                          | Some _ => (true, a)
                          | None => _authenticate cfg faults a
                          end in
                 issued (snd r) = issued a
                 /\ requests_of (trace (snd r)) = requests_of (trace a)).
    { destruct (authenticated_session a) as [c |]; cbn zeta.
      - split; reflexivity.
      - destruct (ClientProperties.authenticate_counts cfg faults a)
          as (_ & Hi & _).
        pose proof (proj2 (RetryBounds.authenticate_quiet cfg faults a))
          as Hq.
        split; assumption. }
    cbn zeta in H1.
    destruct (match authenticated_session a with
              | Some _ => (true, a)
              | None => _authenticate cfg faults a
              end) as [authenticated a1].
    cbn [snd] in H1. destruct H1 as [Hi Hq].
    destruct (negb authenticated); [discriminate |].
    destruct (int_ (text (TEAM_ID cfg))) as [team |]; [| discriminate].
    destruct (authenticated_session a1) as [c |] eqn:Hc; [| discriminate].
    unfold send. rewrite Hi.
    destruct (respond (issued a)) as [status json | |] eqn:Hr;
      [ destruct (status =? 200)%Z eqn:H200;
        [ destruct json as [j |] | ] | | ];
      cbn [fst snd]; try discriminate.
    intros _. apply Z.eqb_eq in H200. subst status.
    split; [reflexivity |]. split; [discriminate |].
    exists c, j. cbn. rewrite RetryBounds.requests_of_app, Hq, Hi.
    repeat split. exact Hc.
  - intros c j Hteam Hint Hc Hr. unfold execute_transfers.
    rewrite Hteam, Hc. cbn [negb].
    destruct (int_ (text (TEAM_ID cfg))); [| congruence].
    rewrite Hc. unfold send. rewrite Hr. reflexivity.
Qed.

End Transfers.


Lemma nonempty_lookup {V : Type} (d : gmap string V) (k : string) (v : V) :
  d !! k = Some v -> nonempty d = true.
Proof.
  intros Hk. unfold nonempty.
  destruct (map_to_list d) as [| kv l] eqn:Hl; [| reflexivity].
  apply map_to_list_empty_iff in Hl. subst d.
  rewrite lookup_empty in Hk. discriminate.
Qed.

Lemma find_gameweek_skip (pre rest : list (gmap string value)) :
  (forall g, In g pre -> flagged g = false) ->
  find_gameweek (pre ++ rest) = find_gameweek rest.
Proof.
  induction pre as [| g pre IH]; intros Hpre; [reflexivity |].
  cbn [app find_gameweek].
  pose proof (Hpre g (or_introl eq_refl)) as Hg.
  unfold flagged in Hg. apply orb_false_iff in Hg as [-> ->].
  apply IH. intros g' Hin. apply Hpre. right. exact Hin.
Qed.

Section Fetch.

Variable cfg : settings.
Variable faults : nat -> local_fault.
Variable str_ : value -> string.

(** When no gameweek is given, [get_team_picks] asks for the picks of the
    first event, in the order of the bootstrap document, that is flagged
    current or next, whichever of the two flags it carries.  When the
    bootstrap data cannot be fetched, holds no events or flags none of them,
    or when that event has no id, it returns [None] without asking for any
    picks. *)
Theorem team_picks_resolve_the_first_flagged_event {Body : Type}
    (respond_bootstrap : nat -> outcome bootstrap)
    (respond : nat -> outcome Body) (a : api) :
  configured (TEAM_ID cfg) = true ->
  let fetched := get_bootstrap_data cfg faults respond_bootstrap a in
  let picks :=
    get_team_picks cfg faults str_ respond_bootstrap respond VNone a in
  (forall doc pre event post,
      fst fetched = Some doc ->
      doc !! "events" = Some (pre ++ event :: post) ->
      (forall g, In g pre -> flagged g = false) ->
      flagged event = true ->
      get event "id" <> VNone ->
      picks
      = _make_request_with_retry cfg respond faults
          (picks_url cfg str_ (get event "id")) "GET" (snd fetched))
  /\ (forall doc pre event post,
        fst fetched = Some doc ->
        doc !! "events" = Some (pre ++ event :: post) ->
        (forall g, In g pre -> flagged g = false) ->
        flagged event = true ->
        get event "id" = VNone ->
        picks = (None, snd fetched))
  /\ (forall doc,
        fst fetched = Some doc ->
        (forall g, In g (default [] (doc !! "events")) -> flagged g = false) ->
        picks = (None, snd fetched))
  /\ (fst fetched = None -> picks = (None, snd fetched)).
Proof.
  intros Hteam fetched picks. subst fetched picks.
  unfold get_team_picks. rewrite Hteam. cbn [negb].
  destruct (get_bootstrap_data cfg faults respond_bootstrap a)
    as [bootstrap_data a1].
  cbn [fst snd].
  assert (Hfirst : forall doc pre event post,
             doc !! "events" = Some (pre ++ event :: post) ->
             (forall g, In g pre -> flagged g = false) ->
             flagged event = true ->
             gameweek_of (Some doc) = get event "id").
  { intros doc pre event post Hev Hpre Hflag. unfold gameweek_of.
    rewrite (nonempty_lookup doc "events" _ Hev), Hev. cbn [from_option id].
    rewrite (find_gameweek_skip pre (event :: post) Hpre).
    cbn [find_gameweek]. unfold flagged in Hflag.
    destruct (truthy (get event "is_current")); [reflexivity |].
    cbn in Hflag. rewrite Hflag. reflexivity. }
  split; [| split; [| split]].
  - intros doc pre event post -> Hev Hpre Hflag Hid.
    rewrite (Hfirst doc pre event post Hev Hpre Hflag).
    destruct (get event "id"); [contradiction | | |]; reflexivity.
  - intros doc pre event post -> Hev Hpre Hflag Hid.
    rewrite (Hfirst doc pre event post Hev Hpre Hflag), Hid. reflexivity.
  - intros doc -> Hnone. unfold gameweek_of.
    destruct (nonempty doc); [| reflexivity].
    rewrite <- (app_nil_r (default [] (doc !! "events"))).
    rewrite (find_gameweek_skip _ [] Hnone). reflexivity.
  - intros ->. reflexivity.
Qed.

Lemma find_player_skip (pre rest : list (gmap string value))
    (player_id : value) :
  (forall g, In g pre -> eq_ (get g "id") player_id = false) ->
  find_player (pre ++ rest) player_id = find_player rest player_id.
Proof.
  induction pre as [| g pre IH]; intros Hpre; [reflexivity |].
  cbn [app find_player]. rewrite (Hpre g (or_introl eq_refl)).
  apply IH. intros g' Hin. apply Hpre. right. exact Hin.
Qed.

Lemma find_player_found (players : list (gmap string value))
    (player_id : value) (p : gmap string value) :
  find_player players player_id = Some p ->
  In p players /\ eq_ (get p "id") player_id = true.
Proof.
  induction players as [| g players IH]; cbn [find_player]; [discriminate |].
  destruct (eq_ (get g "id") player_id) eqn:Hg.
  - intros [= <-]. split; [left; reflexivity | exact Hg].
  - intros Hrest. destruct (IH Hrest) as [Hin Hid].
    split; [right; exact Hin | exact Hid].
Qed.

(** [get_player_info] returns the first element of the bootstrap document
    whose id equals the one asked for: what it returns is one of the
    elements and carries that id; it returns [None] when no element does,
    and when the bootstrap data cannot be fetched. *)
Theorem player_info_is_the_first_match
    (respond : nat -> outcome bootstrap) (player_id : value) (a : api) :
  let fetched := get_bootstrap_data cfg faults respond a in
  let info := fst (get_player_info cfg faults respond player_id a) in
  (forall p, info = Some p ->
     eq_ (get p "id") player_id = true
     /\ exists doc, fst fetched = Some doc
                    /\ In p (default [] (doc !! "elements")))
  /\ (forall doc pre p post,
        fst fetched = Some doc ->
        doc !! "elements" = Some (pre ++ p :: post) ->
        (forall g, In g pre -> eq_ (get g "id") player_id = false) ->
        eq_ (get p "id") player_id = true ->
        info = Some p)
  /\ (forall doc,
        fst fetched = Some doc ->
        (forall g, In g (default [] (doc !! "elements")) ->
           eq_ (get g "id") player_id = false) ->
        info = None)
  /\ (fst fetched = None -> info = None).
Proof.
  intros fetched info. subst fetched info. unfold get_player_info.
  destruct (get_bootstrap_data cfg faults respond a) as [bootstrap_data a1].
  cbn [fst snd]. split; [| split; [| split]].
  - intros p Hp. unfold player_of in Hp.
    destruct bootstrap_data as [doc |]; [| discriminate].
    destruct (nonempty doc); [| discriminate].
    destruct (find_player_found _ _ _ Hp) as [Hin Hid].
    split; [exact Hid |]. exists doc. split; [reflexivity | exact Hin].
  - intros doc pre p post -> Hel Hpre Hid. unfold player_of.
    rewrite (nonempty_lookup doc "elements" _ Hel), Hel. cbn [from_option id].
    rewrite (find_player_skip pre (p :: post) player_id Hpre).
    cbn [find_player]. rewrite Hid. reflexivity.
  - intros doc -> Hnone. unfold player_of.
    destruct (nonempty doc); [| reflexivity].
    rewrite <- (app_nil_r (default [] (doc !! "elements"))).
    rewrite (find_player_skip _ [] player_id Hnone). reflexivity.
  - intros ->. reflexivity.
Qed.

Lemma chance_or_100_not_none (c : value) : chance_or_100 c <> VNone.
Proof. destruct c; discriminate. Qed.

(** The injury status always has the same four entries, and neither chance
    of playing is ever [None].  For a player that is found, each chance is
    the player's own when it is present and not [None], and 100 when it is
    missing or [None]; status and news are the player's own when present,
    and ['a'] and the empty string when missing.  A player that is unknown,
    or whose data cannot be fetched, is reported with status ['a'], no news
    and both chances at 100. *)
Theorem injury_status_is_complete
    (respond : nat -> outcome bootstrap) (player_id : value) (a : api) :
  let st := fst (get_player_injury_status cfg faults respond player_id a) in
  let info := fst (get_player_info cfg faults respond player_id a) in
  dom st = {[ "status"; "news"; "chance_of_playing_next_round";
              "chance_of_playing_this_round" ]}
  /\ (exists c, st !! "chance_of_playing_next_round" = Some c /\ c <> VNone)
  /\ (exists c, st !! "chance_of_playing_this_round" = Some c /\ c <> VNone)
  /\ (info = None ->
      st = fit_and_available
      /\ st !! "status" = Some (VStr "a")
      /\ st !! "news" = Some (VStr "")
      /\ st !! "chance_of_playing_next_round" = Some (VInt 100)
      /\ st !! "chance_of_playing_this_round" = Some (VInt 100))
  /\ (forall p,
        info = Some p ->
        (forall k,
            k = "chance_of_playing_next_round"
            \/ k = "chance_of_playing_this_round" ->
            (p !! k = None \/ p !! k = Some VNone ->
             st !! k = Some (VInt 100))
            /\ (forall c, p !! k = Some c -> c <> VNone ->
                  st !! k = Some c))
        /\ (p !! "status" = None -> st !! "status" = Some (VStr "a"))
        /\ (forall v, p !! "status" = Some v -> st !! "status" = Some v)
        /\ (p !! "news" = None -> st !! "news" = Some (VStr ""))
        /\ (forall v, p !! "news" = Some v -> st !! "news" = Some v)).
Proof.
  intros st info. subst st info. unfold get_player_injury_status.
  destruct (get_player_info cfg faults respond player_id a)
    as [player_info a1].
  cbn [fst].
  assert (Hdefault :
            dom fit_and_available
            = ({[ "status"; "news"; "chance_of_playing_next_round";
                  "chance_of_playing_this_round" ]} : gset string)
            /\ (exists c, fit_and_available !! "chance_of_playing_next_round"
                          = Some c /\ c <> VNone)
            /\ (exists c, fit_and_available !! "chance_of_playing_this_round"
                          = Some c /\ c <> VNone)).
  { unfold fit_and_available. split; [| split].
    - rewrite !dom_insert_L, dom_singleton_L. set_solver.
    - exists (VInt 100). split; [| discriminate]. vm_compute. reflexivity.
    - exists (VInt 100). split; [| discriminate]. vm_compute. reflexivity. }
  destruct Hdefault as (Hd1 & Hd2 & Hd3).
  assert (Hvalues :
            fit_and_available !! "status" = Some (VStr "a")
            /\ fit_and_available !! "news" = Some (VStr "")
            /\ fit_and_available !! "chance_of_playing_next_round"
               = Some (VInt 100)
            /\ fit_and_available !! "chance_of_playing_this_round"
               = Some (VInt 100))
    by (repeat split; vm_compute; reflexivity).
  destruct Hvalues as (Hv1 & Hv2 & Hv3 & Hv4).
  unfold injury_status_of.
  destruct player_info as [info |].
  - destruct (nonempty info) eqn:Hne.
    + split; [| split; [| split; [| split]]].
      * rewrite !dom_insert_L, dom_singleton_L. set_solver.
      * eexists. split.
        -- rewrite lookup_insert_ne by discriminate.
           rewrite lookup_insert_ne by discriminate.
           apply lookup_insert_eq.
        -- apply chance_or_100_not_none.
      * eexists. split.
        -- rewrite !lookup_insert_ne by discriminate.
           apply lookup_singleton_eq.
        -- apply chance_or_100_not_none.
      * discriminate.
      * intros p [= <-]. split; [| split; [| split; [| split]]].
        -- intros k [-> | ->].
           ++ rewrite lookup_insert_ne by discriminate.
              rewrite lookup_insert_ne by discriminate.
              rewrite lookup_insert_eq. unfold get. split.
              ** intros [-> | ->]; reflexivity.
              ** intros c -> Hc. cbn.
                 destruct c; [contradiction | | |]; reflexivity.
           ++ rewrite !lookup_insert_ne by discriminate.
              rewrite lookup_singleton_eq. unfold get. split.
              ** intros [-> | ->]; reflexivity.
              ** intros c -> Hc. cbn.
                 destruct c; [contradiction | | |]; reflexivity.
        -- intros Hs. rewrite lookup_insert_eq. unfold get_or.
           rewrite Hs. reflexivity.
        -- intros v Hs. rewrite lookup_insert_eq. unfold get_or.
           rewrite Hs. reflexivity.
        -- intros Hs. rewrite lookup_insert_ne by discriminate.
           rewrite lookup_insert_eq. unfold get_or. rewrite Hs. reflexivity.
        -- intros v Hs. rewrite lookup_insert_ne by discriminate.
           rewrite lookup_insert_eq. unfold get_or. rewrite Hs. reflexivity.
    + assert (Hempty : info = ∅).
      { unfold nonempty in Hne.
        destruct (map_to_list info) eqn:Hl; [| discriminate].
        apply map_to_list_empty_iff in Hl. exact Hl. }
      subst info.
      split; [exact Hd1 |]. split; [exact Hd2 |]. split; [exact Hd3 |].
      split; [discriminate |].
      intros p [= <-]. split; [| split; [| split; [| split]]].
      * intros k [-> | ->]; (split; [intros _; assumption |]);
          intros c Hc; rewrite lookup_empty in Hc; discriminate.
      * intros _. exact Hv1.
      * intros v Hs. rewrite lookup_empty in Hs. discriminate.
      * intros _. exact Hv2.
      * intros v Hs. rewrite lookup_empty in Hs. discriminate.
  - split; [exact Hd1 |]. split; [exact Hd2 |]. split; [exact Hd3 |].
    split; [| discriminate].
    intros _. repeat split; assumption.
Qed.


(** The fetch operations are made of requests: the clients they leave are
    reachable, so the life-cycle properties hold after them too. *)
Lemma fetches_stay_reachable {Body : Type}
    (respond_bootstrap : nat -> outcome bootstrap)
    (respond : nat -> outcome Body)
    (respond_fixtures : nat -> outcome (list (gmap string value)))
    (v w : value) (a : api) :
  reachable a ->
  reachable (snd (get_team_picks cfg faults str_ respond_bootstrap respond
                    v a))
  /\ reachable (snd (get_player_injury_status cfg faults respond_bootstrap
                       v a))
  /\ reachable (snd (get_fixture_difficulty cfg respond_fixtures faults
                       v w a))
  /\ reachable (snd (get_team_data cfg faults respond a))
  /\ reachable (snd (get_player_data cfg faults str_ respond v a)).
Proof.
  intros Ha.
  assert (Hreq : forall (B : Type) (r : nat -> outcome B) url b,
             reachable b ->
             reachable (snd (_make_request_with_retry cfg r faults url
                               "GET" b)))
    by (intros; apply reach_request; assumption).
  repeat split.
  - unfold get_team_picks.
    destruct (negb (configured (TEAM_ID cfg))); [exact Ha |].
    destruct v;
      try (cbn [snd]; apply Hreq; exact Ha).
    unfold get_bootstrap_data.
    pose proof (Hreq _ respond_bootstrap
                  (FPL_BASE_URL +:+ "/bootstrap-static/") a Ha) as H1.
    destruct (_make_request_with_retry cfg respond_bootstrap faults
                (FPL_BASE_URL +:+ "/bootstrap-static/") "GET" a)
      as [bootstrap_data a1].
    cbn [snd] in H1.
    destruct (gameweek_of bootstrap_data);
      first [exact H1 | apply Hreq; exact H1].
  - unfold get_player_injury_status, get_player_info, get_bootstrap_data.
    pose proof (Hreq _ respond_bootstrap
                  (FPL_BASE_URL +:+ "/bootstrap-static/") a Ha) as H1.
    destruct (_make_request_with_retry cfg respond_bootstrap faults
                (FPL_BASE_URL +:+ "/bootstrap-static/") "GET" a)
      as [bootstrap_data a1].
    exact H1.
  - unfold get_fixture_difficulty, get_fixtures.
    pose proof (Hreq _ respond_fixtures (FPL_BASE_URL +:+ "/fixtures/") a Ha)
      as H1.
    destruct (_make_request_with_retry cfg respond_fixtures faults
                (FPL_BASE_URL +:+ "/fixtures/") "GET" a) as [fixtures a1].
    exact H1.
  - unfold get_team_data.
    destruct (negb (configured (TEAM_ID cfg))); [exact Ha |].
    apply Hreq. exact Ha.
  - unfold get_player_data. apply Hreq. exact Ha.
Qed.

End Fetch.

End EndpointProperties.

(** * Properties of training and of the feature importances *)

Module TrainingProperties.

Import Py MLPredictor Training.

Lemma or_not_none (v d : value) : d <> VNone -> or_ v d <> VNone.
Proof.
  intros Hd. unfold or_. destruct (truthy v) eqn:Hv; [| exact Hd].
  destruct v; [discriminate Hv | discriminate ..].
Qed.

(** [prepare_features] gives one row per record and fifteen numbers-to-be
    per row, one per feature name; no entry is [None], whatever the record
    lacks; the clean-sheet entry is 0 or 1. *)
Theorem prepare_features_shape (player_data : list (gmap string value)) :
  length (prepare_features player_data) = length player_data
  /\ Forall (fun row =>
               length row = length feature_names
               /\ Forall (fun v => v <> VNone) row
               /\ (row !! 4%nat = Some (VInt 0)
                   \/ row !! 4%nat = Some (VInt 1)))
       (prepare_features player_data).
Proof.
  unfold prepare_features. split; [apply length_map |].
  apply Forall_map. apply Forall_forall. intros record _.
  unfold feature_vector. split; [reflexivity |]. split.
  - repeat (apply Forall_cons; split;
            [ first [ apply or_not_none; discriminate
                    | destruct (truthy _); discriminate ] |]).
    apply Forall_nil. trivial.
  - cbn. destruct (truthy _); [right | left]; reflexivity.
Qed.



Lemma SFcompare_antisym (x y : spec_float) :
  SFcompare y x = option_map CompOpp (SFcompare x y).
Proof.
  destruct x as [sx | sx | | sx mx ex], y as [sy | sy | | sy my ey];
    cbn; try reflexivity;
    try (destruct sx; reflexivity);
    try (destruct sy; reflexivity);
    try (destruct sx, sy; reflexivity).
  pose proof (Pos.compare_cont_antisym mx my Eq) as Hm. cbn in Hm.
  destruct sx, sy; cbn; try reflexivity;
    rewrite (Z.compare_antisym ex ey);
    destruct (ex ?= ey)%Z; cbn; try reflexivity;
    rewrite <- Hm, ?CompOpp_involutive; reflexivity.
Qed.

Lemma float_lt_le (x y : spec_float) :
  SFltb x y = true -> SFleb x y = true.
Proof.
  unfold SFltb, SFleb. destruct (SFcompare x y) as [[] |];
    intros H; try discriminate; reflexivity.
Qed.

Lemma SFcompare_total (x y : spec_float) :
  is_nan x = false -> is_nan y = false ->
  exists c, SFcompare x y = Some c.
Proof.
  destruct x, y; cbn; intros Hx Hy; try discriminate; eauto.
Qed.

Lemma float_not_lt_ge (x y : spec_float) :
  is_nan x = false -> is_nan y = false ->
  SFltb x y = false -> SFleb y x = true.
Proof.
  intros Hx Hy. unfold SFltb, SFleb. rewrite (SFcompare_antisym x y).
  destruct (SFcompare_total x y Hx Hy) as [c ->].
  destruct c; cbn; intros H; try discriminate; reflexivity.
Qed.

Lemma insert_desc_perm (x : string * spec_float)
    (l : list (string * spec_float)) :
  Permutation (insert_desc x l) (x :: l).
Proof.
  induction l as [| y l IH]; cbn; [reflexivity |].
  destruct (SFltb (snd x) (snd y)); [| reflexivity].
  rewrite IH. apply perm_swap.
Qed.

Lemma sorted_desc_perm (l : list (string * spec_float)) :
  Permutation (sorted_desc l) l.
Proof.
  induction l as [| x l IH]; cbn; [reflexivity |].
  rewrite insert_desc_perm. apply perm_skip. exact IH.
Qed.

Lemma insert_desc_decreasing (x : string * spec_float)
    (l : list (string * spec_float)) :
  is_nan (snd x) = false ->
  Forall (fun y => is_nan (snd y) = false) l ->
  decreasing l -> decreasing (insert_desc x l).
Proof.
  intros Hx. induction l as [| y l IH]; intros Hall Hdec.
  - cbn. split; trivial.
  - apply Forall_cons in Hall as [Hy Hall]. cbn [insert_desc].
    destruct (SFltb (snd x) (snd y)) eqn:Hlt.
    + destruct Hdec as [Hhead Hrest]. specialize (IH Hall Hrest).
      cbn [decreasing]. split; [| exact IH].
      destruct l as [| z l]; cbn [insert_desc].
      * apply float_lt_le. exact Hlt.
      * destruct (SFltb (snd x) (snd z)); [exact Hhead |].
        apply float_lt_le. exact Hlt.
    + cbn [decreasing]. split; [| exact Hdec].
      apply float_not_lt_ge; assumption.
Qed.

Lemma importance_items_spec (names : list string)
    (importance : list spec_float) :
  forall i items,
    importance_items i names importance = Some items ->
    map fst items = names
    /\ Forall (fun y => is_nan (snd y) = false) items
    /\ (names = [] \/ (i + length names <= length importance)%nat).
Proof.
  induction names as [| feature rest IH]; intros i items; cbn.
  - intros [= <-]. split; [reflexivity |]. split; [| left; reflexivity].
    exact (List.Forall_nil _).
  - destruct (importance !! i) as [v |] eqn:Hv; [| discriminate].
    destruct (importance_items (S i) rest importance) as [items' |] eqn:Hi;
      [| discriminate].
    intros [= <-]. destruct (IH (S i) items' Hi) as (Hnames & Hall & Hlen).
    cbn. rewrite Hnames. split; [reflexivity |]. split.
    + constructor; [| exact Hall]. cbn.
      destruct (is_nan v) eqn:Hn; [reflexivity | exact Hn].
    + right. apply lookup_lt_Some in Hv.
      destruct Hlen as [-> | Hlen]; cbn; lia.
Qed.

Lemma importance_items_enough (names : list string)
    (importance : list spec_float) :
  forall i,
    (i + length names <= length importance)%nat ->
    exists items, importance_items i names importance = Some items.
Proof.
  induction names as [| feature rest IH]; intros i Hlen; cbn.
  - eauto.
  - cbn in Hlen.
    destruct (lookup_lt_is_Some_2 importance i ltac:(lia)) as [v Hv].
    destruct (IH (S i) ltac:(lia)) as [items Hitems].
    rewrite Hv, Hitems. eauto.
Qed.

Lemma sorted_desc_decreasing (l : list (string * spec_float)) :
  Forall (fun y => is_nan (snd y) = false) l ->
  decreasing (sorted_desc l)
  /\ Forall (fun y => is_nan (snd y) = false) (sorted_desc l).
Proof.
  induction l as [| x l IH]; intros Hall.
  - split; [exact I | constructor].
  - apply Forall_cons in Hall as [Hx Hall].
    destruct (IH Hall) as [Hdec Hnan]. cbn [sorted_desc fold_right].
    fold (sorted_desc l). split.
    + apply insert_desc_decreasing; assumption.
    + apply (Permutation_Forall (Permutation_sym (insert_desc_perm x _))).
      constructor; assumption.
Qed.

(** The items are the feature names, in order, each with its own
    importance, NaN read as 0.0. *)
Lemma importance_items_values (names : list string)
    (importance : list spec_float) :
  forall i items,
    importance_items i names importance = Some items ->
    items
    = combine names
        (map (fun v => if is_nan v then fzero else v) (drop i importance)).
Proof.
  induction names as [| feature rest IH]; intros i items; cbn.
  - intros [= <-]. reflexivity.
  - destruct (importance !! i) as [v |] eqn:Hv; [| discriminate].
    destruct (importance_items (S i) rest importance) as [items' |] eqn:Hi;
      [| discriminate].
    intros [= <-]. rewrite (drop_S _ _ _ Hv). cbn.
    rewrite (IH (S i) items' Hi). reflexivity.
Qed.

(** The feature importances come back sorted, largest first, and hold no
    NaN.  With a trained model and at least fifteen importances the
    dictionary holds exactly the fifteen feature names, each with the
    importance at its own position, a NaN importance reading 0.0.  An
    untrained predictor, a model without importances and fewer than fifteen
    importances all give the empty dictionary. *)
Theorem feature_importance_is_sorted (p : predictor)
    (feature_importances_ : option (list spec_float)) :
  let r := get_feature_importance p feature_importances_ in
  decreasing r
  /\ Forall (fun y => is_nan (snd y) = false) r
  /\ (is_trained p = false -> r = [])
  /\ (forall importance,
        feature_importances_ = Some importance ->
        (length importance < 15)%nat -> r = [])
  /\ (forall importance,
        is_trained p = true ->
        feature_importances_ = Some importance ->
        (15 <= length importance)%nat ->
        Permutation (map fst r) feature_names
        /\ Permutation r
             (combine feature_names
                (map (fun v => if is_nan v then fzero else v) importance))).
Proof.
  intros r. subst r. unfold get_feature_importance.
  destruct (is_trained p); cbn [negb];
    [| repeat split; try constructor; discriminate].
  destruct feature_importances_ as [importance |];
    [| repeat split; try constructor; discriminate].
  destruct (importance_items 0 feature_names importance) as [items |] eqn:Hi.
  - destruct (importance_items_spec _ _ _ _ Hi) as (Hnames & Hnan & Hlen).
    destruct (sorted_desc_decreasing items Hnan) as [Hdec Hnan'].
    split; [exact Hdec |]. split; [exact Hnan' |].
    split; [discriminate |]. split.
    + intros importance0 [= <-] Hshort.
      destruct Hlen as [Hnil | Hlen]; [discriminate Hnil |].
      cbn in Hlen. lia.
    + intros importance0 _ [= <-] _. split.
      * rewrite <- Hnames. apply Permutation_map. apply sorted_desc_perm.
      * pose proof (importance_items_values _ _ _ _ Hi) as Hvalues.
        rewrite drop_0 in Hvalues. rewrite <- Hvalues.
        apply sorted_desc_perm.
  - split; [exact I |]. split; [constructor |].
    split; [discriminate |]. split; [reflexivity |].
    intros importance0 _ [= <-] Hlong.
    destruct (importance_items_enough feature_names importance 0)
      as [items Hitems]; [cbn; lia | congruence].
Qed.

End TrainingProperties.

(** * The properties at work on concrete clients *)

Module Illustrations.

Import Settings Py FPLAPI MLPredictor Endpoints Training Samples MoreSamples.

Lemma logged_in_reachable : reachable logged_in.
Proof. unfold logged_in. apply reach_authenticate. apply reach_enter. Qed.

Lemma reachable_in_block_witness :
  reachable logged_in
  /\ (size (live logged_in ∖ id_of (session logged_in)) <= 1)%nat.
Proof.
  split; [exact logged_in_reachable |].
  exact (proj1 (proj2 (proj2 (LifecycleProperties.reachable_in_block
                                 logged_in logged_in_reachable)))).
Defined.

Lemma aexit_closes_everything_witness :
  reachable logged_in /\ live (__aexit__ logged_in) = ∅.
Proof.
  split; [exact logged_in_reachable |].
  exact (LifecycleProperties.aexit_closes_everything logged_in
           logged_in_reachable).
Defined.

Lemma failed_authentication_keeps_the_closed_session_witness :
  authenticated_session logged_in
  = Some {| conn_id := 1; conn_headers := session_headers cfg_both |}
  /\ fst (_authenticate cfg_none no_faults logged_in) = false
  /\ session_to_use plain (snd (_authenticate cfg_none no_faults logged_in))
     = {| conn_id := 1; conn_headers := session_headers cfg_both |}.
Proof.
  split; [reflexivity |]. split; [reflexivity |].
  apply (LifecycleProperties.failed_authentication_keeps_the_closed_session
           cfg_none no_faults logged_in _ eq_refl);
    [discriminate | reflexivity].
Defined.

Lemma request_returns_the_first_success_witness :
  fst (_make_request_with_retry cfg_both null_served no_faults
         bootstrap_url "GET" entered) = Some VNone
  /\ seen_by_caller is_none
       (fst (_make_request_with_retry cfg_both null_served no_faults
               bootstrap_url "GET" entered)) = None.
Proof.
  destruct (RetryBounds.request_returns_the_first_success cfg_both
              null_served no_faults bootstrap_url "GET" is_none entered)
    as (_ & _ & Hfirst).
  destruct (Hfirst 0%nat VNone) as [_ Hres];
    [vm_compute; lia | reflexivity |].
  rewrite Hres. split; reflexivity.
Defined.

Lemma request_targets_the_given_url_witness :
  session (snd (_make_request_with_retry cfg_both sustained_503 no_faults
                  bootstrap_url "get" entered))
  = session entered.
Proof.
  exact (proj1 (RetryBounds.request_targets_the_given_url cfg_both
                  sustained_503 no_faults bootstrap_url "get" entered)).
Defined.

Lemma get_never_authenticates_witness :
  upper "get" = "GET"
  /\ auth_calls (snd (_make_request_with_retry cfg_both sustained_503
                        no_faults bootstrap_url "get" logged_in))
     = auth_calls logged_in.
Proof.
  split; [reflexivity |].
  exact (proj1 (proj2 (RetryBounds.get_never_authenticates cfg_both
                         sustained_503 no_faults bootstrap_url "get"
                         logged_in eq_refl))).
Defined.

Lemma request_verb_is_case_insensitive_witness :
  ascii_text "delete" = true
  /\ _make_request_with_retry cfg_both sustained_503 no_faults
       bootstrap_url "delete" entered
     = (None, entered).
Proof.
  split; [reflexivity |].
  apply (proj2 (RetryBounds.request_verb_is_case_insensitive cfg_both
                  sustained_503 no_faults bootstrap_url "delete" entered
                  eq_refl)); discriminate.
Defined.

Lemma transfer_is_never_retried_witness :
  authenticated_session logged_in <> None
  /\ auth_calls (snd (execute_transfers cfg_both no_faults int_sample
                        sustained_429 logged_in))
     = auth_calls logged_in.
Proof.
  assert (H : authenticated_session logged_in <> None) by discriminate.
  split; [exact H |].
  exact (proj2 (proj2 (proj2 (EndpointProperties.transfer_is_never_retried
                                cfg_both no_faults int_sample sustained_429
                                logged_in))) H).
Defined.

Lemma transfer_succeeds_only_on_200_witness :
  fst (execute_transfers cfg_both no_faults int_sample picks_served
         logged_in) = true.
Proof.
  pose proof (proj2 (EndpointProperties.transfer_succeeds_only_on_200
                       cfg_both no_faults int_sample picks_served
                       logged_in)) as H.
  rewrite (H {| conn_id := 1; conn_headers := session_headers cfg_both |}
             tt eq_refl ltac:(discriminate) eq_refl eq_refl).
  reflexivity.
Defined.

Lemma team_picks_resolve_the_first_flagged_event_witness :
  configured (TEAM_ID cfg_both) = true
  /\ fst (get_team_picks cfg_both no_faults str_sample bootstrap_served
            picks_served VNone entered) = Some tt.
Proof.
  split; [reflexivity |].
  destruct (EndpointProperties.team_picks_resolve_the_first_flagged_event
              cfg_both no_faults str_sample bootstrap_served picks_served
              entered eq_refl) as (Hfirst & _).
  rewrite (Hfirst bootstrap_doc [event_11] event_12 [event_13] eq_refl).
  - vm_compute. reflexivity.
  - vm_compute. reflexivity.
  - intros g [<- | []]. vm_compute. reflexivity.
  - vm_compute. reflexivity.
  - vm_compute. discriminate.
Defined.

Lemma player_info_is_the_first_match_witness :
  fst (get_player_info cfg_both no_faults bootstrap_served (VInt 9) entered)
  = Some player_9.
Proof.
  destruct (EndpointProperties.player_info_is_the_first_match cfg_both
              no_faults bootstrap_served (VInt 9) entered)
    as (_ & Hfirst & _).
  apply (Hfirst bootstrap_doc [player_7] player_9 [] eq_refl).
  - vm_compute. reflexivity.
  - intros g [<- | []]. vm_compute. reflexivity.
  - vm_compute. reflexivity.
Defined.

Lemma injury_status_is_complete_witness :
  fst (get_player_injury_status cfg_both no_faults bootstrap_served
         (VInt 9) entered) !! "chance_of_playing_next_round"
  = Some (VInt 75)
  /\ fst (get_player_injury_status cfg_both no_faults bootstrap_served
            (VInt 7) entered) !! "chance_of_playing_next_round"
     = Some (VInt 100)
  /\ fst (get_player_injury_status cfg_both no_faults bootstrap_served
            (VInt 7) entered) !! "chance_of_playing_this_round"
     = Some (VInt 100)
  /\ fst (get_player_injury_status cfg_both no_faults bootstrap_served
            (VInt 7) entered) !! "status"
     = Some (VStr "i").
Proof.
  destruct (EndpointProperties.injury_status_is_complete cfg_both no_faults
              bootstrap_served (VInt 9) entered) as (_ & _ & _ & _ & H9).
  destruct (EndpointProperties.injury_status_is_complete cfg_both no_faults
              bootstrap_served (VInt 7) entered) as (_ & _ & _ & _ & H7).
  destruct (H9 player_9 ltac:(vm_compute; reflexivity)) as (Hc9 & _).
  destruct (H7 player_7 ltac:(vm_compute; reflexivity))
    as (Hc7 & _ & Hs7 & _).
  split; [| split; [| split]].
  - apply (proj2 (Hc9 _ (or_introl eq_refl)) (VInt 75));
      [vm_compute; reflexivity | discriminate].
  - apply (proj1 (Hc7 _ (or_introl eq_refl))).
    right. vm_compute. reflexivity.
  - apply (proj1 (Hc7 _ (or_intror eq_refl))).
    left. vm_compute. reflexivity.
  - apply Hs7. vm_compute. reflexivity.
Defined.


Lemma feature_importance_is_sorted_witness :
  Permutation
    (map fst (get_feature_importance (trained_answering fzero)
                (Some importances_15)))
    feature_names
  /\ In ("goals_scored", fzero)
       (get_feature_importance (trained_answering fzero)
          (Some importances_15))
  /\ In ("bps", of_Z 9)
       (get_feature_importance (trained_answering fzero)
          (Some importances_15)).
Proof.
  destruct (proj2 (proj2 (proj2 (proj2
             (TrainingProperties.feature_importance_is_sorted
                (trained_answering fzero) (Some importances_15)))))
             importances_15 eq_refl eq_refl) as [Hkeys Hitems];
    [cbn; lia |].
  split; [exact Hkeys |].
  split; apply (Permutation_in _ (Permutation_sym Hitems));
    cbn; tauto.
Defined.

Lemma predict_performance_nonneg_witness :
  numeric_form {[ "form" := VFloat (of_Z 5); "minutes" := VStr "ninety" ]}
  /\ exists r,
       predict_performance (trained_answering S754_nan)
         {[ "form" := VFloat (of_Z 5); "minutes" := VStr "ninety" ]}
         (VInt 3) = Returns r
       /\ nonneg r.
Proof.
  assert (H : numeric_form
                {[ "form" := VFloat (of_Z 5); "minutes" := VStr "ninety" ]})
    by (vm_compute; exact I).
  split; [exact H |].
  exact (PredictorProperties.predict_performance_nonneg
           (trained_answering S754_nan) _ (VInt 3) H).
Defined.

End Illustrations.
